(** * Statement-extraction pipeline of the credit-card statement parser

    A shallow embedding of [src/components/CreditCardParser.tsx] (the React
    component that owns the pipeline) and of the API route that follows
    [src/next.config.ts], with the properties the specification states
    about them.

    JavaScript strings are sequences of UTF-16 code units; a code unit is
    an [N] below [2^16].  [js] turns an ASCII literal into such a string. *)

From Stdlib Require Import List NArith ZArith Ascii String Bool Arith Lia DecimalString.
Import ListNotations.

(* ================================================================= *)
(** ** JavaScript strings *)

Module JS.

Definition char := N.
Definition str := list char.

Definition js (s : string) : str := map N_of_ascii (list_ascii_of_string s).

(** Characters that are written by their code: the double quote, the
    backslash and the line feed. *)
Definition dquote : char := 34%N.
Definition backslash : char := 92%N.
Definition nl : char := 10%N.

(** A literal written with apostrophes where the text has double quotes. *)
Definition jq (s : string) : str :=
  map (fun c => if N.eqb c 39 then dquote else c) (js s).

(** [c] is the ASCII character [a]. *)
Definition ch_is (a : ascii) (c : char) : bool := N.eqb c (N_of_ascii a).

Definition str_eqb (a b : str) : bool :=
  if list_eq_dec N.eq_dec a b then true else false.

(** [String.prototype.toLowerCase], on the ASCII range.  Code units
    outside it are kept: no character outside ASCII lowers to a letter of
    the word the controller looks for. *)
Definition lower_char (c : char) : char :=
  if (N.leb 65 c && N.leb c 90)%bool then (c + 32)%N else c.

Definition toLowerCase (s : str) : str := map lower_char s.

(** [s.startsWith(p)], also giving what follows the prefix. *)
Fixpoint strip_prefix (p s : str) : option str :=
  match p, s with
  | [], _ => Some s
  | a :: p', b :: s' => if N.eqb a b then strip_prefix p' s' else None
  | _ :: _, [] => None
  end.

(** [s.includes(p)]. *)
Fixpoint includes (s p : str) : bool :=
  match strip_prefix p s with
  | Some _ => true
  | None => match s with
            | [] => false
            | _ :: s' => includes s' p
            end
  end.

End JS.
Import JS.

(* ================================================================= *)
(** ** JSON values and [JSON.parse] *)

Module JSON.

(** A number keeps its lexeme: the pipeline never computes with one. *)
#[local] Unset Elimination Schemes.
Inductive value : Type :=
| JNull
| JBool (b : bool)
| JNumber (lexeme : str)
| JString (s : str)
| JArray (items : list value)
| JObject (props : list (str * value)).
#[local] Set Elimination Schemes.

Fixpoint obj_get (k : str) (o : list (str * value)) : option value :=
  match o with
  | [] => None
  | (k', v') :: o' => if str_eqb k k' then Some v' else obj_get k o'
  end.

Definition keys (o : list (str * value)) : list str := map fst o.

(** Result of a parsing function: a value and the unread input, a syntax
    error, or recursion budget exhausted. *)
Inductive presult : Type :=
| Ok (v : value) (rest : str)
| SyntaxErr
| OutOfFuel.

Definition is_ws (c : char) : bool :=
  ch_is " " c || N.eqb c 9 || N.eqb c 10 || N.eqb c 13.

Fixpoint skip_ws (s : str) : str :=
  match s with
  | c :: r => if is_ws c then skip_ws r else s
  | [] => []
  end.

Definition is_digit (c : char) : bool := N.leb 48 c && N.leb c 57.

Definition hex_val (c : char) : option N :=
  if is_digit c then Some (c - 48)%N
  else if N.leb 97 c && N.leb c 102 then Some (c - 87)%N
  else if N.leb 65 c && N.leb c 70 then Some (c - 55)%N
  else None.

Definition hex4 (a b c d : char) : option char :=
  match hex_val a, hex_val b, hex_val c, hex_val d with
  | Some x, Some y, Some z, Some w => Some (((x * 16 + y) * 16 + z) * 16 + w)%N
  | _, _, _, _ => None
  end.

(** Value of a run of decimal digits. *)
Definition digits_value (d : str) : N :=
  fold_left (fun acc c => (acc * 10 + (c - 48))%N) d 0%N.

(** An array index: a canonical numeric string (no sign, no leading zero)
    whose value is below [2^32 - 1].  Such keys are integer-like. *)
Definition array_index (k : str) : option N :=
  match k with
  | [] => None
  | c :: r =>
    if forallb is_digit k
       && (negb (ch_is "0" c) || match r with [] => true | _ :: _ => false end)
       && N.ltb (digits_value k) 4294967295
    then Some (digits_value k)
    else None
  end.

Definition has_key (k : str) (o : list (str * value)) : bool :=
  existsb (fun kv => str_eqb k (fst kv)) o.

(** Writing a key that exists replaces its value in place. *)
Fixpoint obj_replace (k : str) (v : value) (o : list (str * value)) : list (str * value) :=
  match o with
  | [] => []
  | (k', v') :: o' => if str_eqb k k' then (k, v) :: o' else (k', v') :: obj_replace k v o'
  end.

(** A new integer-like key goes among the integer-like keys, which come
    first, in ascending order. *)
Fixpoint obj_insert_index (n : N) (k : str) (v : value) (o : list (str * value))
  : list (str * value) :=
  match o with
  | [] => [(k, v)]
  | (k', v') :: o' =>
    match array_index k' with
    | Some n' => if N.ltb n n' then (k, v) :: (k', v') :: o'
                 else (k', v') :: obj_insert_index n k v o'
    | None => (k, v) :: (k', v') :: o'
    end
  end.

(** Own properties of an object, in the order in which JavaScript lists
    them: integer-like keys ascending, then the other keys in creation
    order.  [obj_set] is [CreateDataProperty]. *)
Definition obj_set (k : str) (v : value) (o : list (str * value)) : list (str * value) :=
  if has_key k o then obj_replace k v o
  else match array_index k with
       | Some n => obj_insert_index n k v o
       | None => o ++ [(k, v)]
       end.

(** Single-character escapes of a JSON string. *)
Definition escape (c : char) : option char :=
  if N.eqb c dquote then Some c
  else if N.eqb c backslash then Some c
  else if ch_is "/" c then Some c
  else if ch_is "b" c then Some 8%N
  else if ch_is "f" c then Some 12%N
  else if ch_is "n" c then Some 10%N
  else if ch_is "r" c then Some 13%N
  else if ch_is "t" c then Some 9%N
  else None.

(** The characters of a string literal after its opening quote, up to the
    closing quote: the string denoted and the input after the quote. *)
Fixpoint string_chars (s : str) : option (str * str) :=
  match s with
  | [] => None
  | c :: r =>
    if N.eqb c dquote then Some ([], r)
    else if N.eqb c backslash then
      match r with
      | [] => None
      | e :: r' =>
        if ch_is "u" e then
          match r' with
          | h1 :: h2 :: h3 :: h4 :: r'' =>
            match hex4 h1 h2 h3 h4, string_chars r'' with
            | Some u, Some (t, rest) => Some (u :: t, rest)
            | _, _ => None
            end
          | _ => None
          end
        else
          match escape e, string_chars r' with
          | Some x, Some (t, rest) => Some (x :: t, rest)
          | _, _ => None
          end
      end
    else if N.ltb c 32 then None
    else
      match string_chars r with
      | Some (t, rest) => Some (c :: t, rest)
      | None => None
      end
  end.

(** Longest run of digits at the head of the input. *)
Fixpoint digits (s : str) : str * str :=
  match s with
  | c :: r => if is_digit c then let (d, rest) := digits r in (c :: d, rest) else ([], s)
  | [] => ([], [])
  end.

(** Integer part: [0], or a non-zero digit followed by digits. *)
Definition int_part (s : str) : option (str * str) :=
  match s with
  | c :: r =>
    if ch_is "0" c then Some ([c], r)
    else if is_digit c then let (d, rest) := digits r in Some (c :: d, rest)
    else None
  | [] => None
  end.

Definition frac_part (s : str) : option (str * str) :=
  match s with
  | c :: r =>
    if ch_is "." c then
      match digits r with
      | ([], _) => None
      | (d, rest) => Some (c :: d, rest)
      end
    else Some ([], s)
  | [] => Some ([], [])
  end.

Definition exp_digits (pre : str) (s : str) : option (str * str) :=
  match digits s with
  | ([], _) => None
  | (d, rest) => Some (pre ++ d, rest)
  end.

Definition exp_part (s : str) : option (str * str) :=
  match s with
  | c :: r =>
    if ch_is "e" c || ch_is "E" c then
      match r with
      | g :: r' => if ch_is "+" g || ch_is "-" g then exp_digits [c; g] r' else exp_digits [c] r
      | [] => None
      end
    else Some ([], s)
  | [] => Some ([], [])
  end.

(** A JSON number: its lexeme and the input after it. *)
Definition number (s : str) : option (str * str) :=
  let (sign, s1) := match s with
                    | c :: r => if ch_is "-" c then ([c], r) else ([], s)
                    | [] => ([], [])
                    end in
  match int_part s1 with
  | None => None
  | Some (i, s2) =>
    match frac_part s2 with
    | None => None
    | Some (f, s3) =>
      match exp_part s3 with
      | None => None
      | Some (e, s4) => Some (sign ++ i ++ f ++ e, s4)
      end
    end
  end.

Definition literal (word : string) (v : value) (s : str) : presult :=
  match strip_prefix (js word) s with
  | Some rest => Ok v rest
  | None => SyntaxErr
  end.

(** The JSON grammar.  [parse_value] reads one value after optional white
    space; [elements] reads the items of an array after its first item is
    known to exist, [members] the members of an object likewise.  Every
    call passes a smaller budget. *)
Fixpoint parse_value (fuel : nat) (s : str) {struct fuel} : presult :=
  match fuel with
  | O => OutOfFuel
  | S f =>
    match skip_ws s with
    | [] => SyntaxErr
    | c :: r =>
      if ch_is "{" c then
        match skip_ws r with
        | [] => SyntaxErr
        | c' :: r' => if ch_is "}" c' then Ok (JObject []) r' else members f (c' :: r') []
        end
      else if ch_is "[" c then
        match skip_ws r with
        | [] => SyntaxErr
        | c' :: r' => if ch_is "]" c' then Ok (JArray []) r' else elements f (c' :: r') []
        end
      else if N.eqb c dquote then
        match string_chars r with
        | Some (t, rest) => Ok (JString t) rest
        | None => SyntaxErr
        end
      else if ch_is "-" c || is_digit c then
        match number (c :: r) with
        | Some (n, rest) => Ok (JNumber n) rest
        | None => SyntaxErr
        end
      else if ch_is "t" c then literal "true" (JBool true) (c :: r)
      else if ch_is "f" c then literal "false" (JBool false) (c :: r)
      else if ch_is "n" c then literal "null" JNull (c :: r)
      else SyntaxErr
    end
  end

with elements (fuel : nat) (s : str) (acc : list value) {struct fuel} : presult :=
  match fuel with
  | O => OutOfFuel
  | S f =>
    match parse_value f s with
    | Ok v r =>
      match skip_ws r with
      | [] => SyntaxErr
      | c :: r' =>
        if ch_is "," c then elements f r' (acc ++ [v])
        else if ch_is "]" c then Ok (JArray (acc ++ [v])) r'
        else SyntaxErr
      end
    | SyntaxErr => SyntaxErr
    | OutOfFuel => OutOfFuel
    end
  end

with members (fuel : nat) (s : str) (acc : list (str * value)) {struct fuel} : presult :=
  match fuel with
  | O => OutOfFuel
  | S f =>
    match skip_ws s with
    | [] => SyntaxErr
    | q :: r =>
      if N.eqb q dquote then
        match string_chars r with
        | None => SyntaxErr
        | Some (k, r1) =>
          match skip_ws r1 with
          | [] => SyntaxErr
          | c1 :: r2 =>
            if ch_is ":" c1 then
              match parse_value f r2 with
              | Ok v r3 =>
                match skip_ws r3 with
                | [] => SyntaxErr
                | c3 :: r4 =>
                  if ch_is "," c3 then members f r4 (obj_set k v acc)
                  else if ch_is "}" c3 then Ok (JObject (obj_set k v acc)) r4
                  else SyntaxErr
                end
              | SyntaxErr => SyntaxErr
              | OutOfFuel => OutOfFuel
              end
            else SyntaxErr
          end
        end
      else SyntaxErr
    end
  end.

(** Budget that a text of this length cannot exhaust (see [parse_value_fuel]). *)
Definition fuel_for (text : str) : nat := 2 * List.length text + 1.

(** [JSON.parse(text)]: [Some] value, or [None] where it throws a
    [SyntaxError]. *)
Definition parse (text : str) : option value :=
  match parse_value (fuel_for text) text with
  | Ok v rest => match skip_ws rest with
                 | [] => Some v
                 | _ :: _ => None
                 end
  | SyntaxErr => None
  | OutOfFuel => None
  end.

End JSON.
Import JSON.

(* ================================================================= *)
(** ** The regular expression [/\{[\s\S]+\}/] *)

Module Regex.

(** [[\s\S]*\}] at the head of the input, greedy: the longest prefix that
    ends with a closing brace. *)
Fixpoint to_last_close (s : str) : option str :=
  match s with
  | [] => None
  | c :: r =>
    match to_last_close r with
    | Some m => Some (c :: m)
    | None => if ch_is "}" c then Some [c] else None
    end
  end.

(** [[\s\S]+\}]: one character of any kind, then as above. *)
Definition any_plus_close (s : str) : option str :=
  match s with
  | [] => None
  | c :: r => option_map (cons c) (to_last_close r)
  end.

(** The whole pattern tried at the head of the input. *)
Definition match_here (s : str) : option str :=
  match s with
  | [] => None
  | c :: r => if ch_is "{" c then option_map (cons c) (any_plus_close r) else None
  end.

(** [text.match(/\{[\s\S]+\}/)]: the pattern is tried at each position
    from the left; the result is element [0] of the match, or [None] for
    [null]. *)
Fixpoint exec (s : str) : option str :=
  match match_here s with
  | Some m => Some m
  | None => match s with
            | [] => None
            | _ :: r => exec r
            end
  end.

End Regex.

(* ================================================================= *)
(** ** Thrown errors *)

(** What [catch (err: any)] reads of an error: its [message], [None] when
    the property is undefined. *)
Record thrown : Type := Thrown { message : option str }.

Definition Error (m : str) : thrown := Thrown (Some m).

(** The outcome of an [await]ed computation. *)
Definition outcome (A : Type) : Type := (thrown + A)%type.

Definition bind {A B : Type} (x : outcome A) (k : A -> outcome B) : outcome B :=
  match x with
  | inl e => inl e
  | inr a => k a
  end.

Notation "'let*' x ':=' c 'in' k" := (bind c (fun x => k))
  (at level 10, x name, c at level 100, k at level 200).

(* ================================================================= *)
(** ** The collaborators: PDF.js, [fetch], the engine's error texts *)

(** [textContent.items]: the [str] of each text item of a page. *)
Definition TextContent := list str.

(** A loaded document: for each page, what [getPage(i)] followed by
    [getTextContent()] settles to.  [numPages] is the length. *)
Definition PdfDocument := list (outcome TextContent).

Record File : Type := {
  name : str;
  type : str;
  data : list Byte.byte
}.

Record Response : Type := {
  ok : bool;
  status : nat;
  (** what [response.json()] settles to; [None] when it rejects *)
  json : option JSON.value
}.

Record Env : Type := {
  (** [typeof window !== 'undefined'] *)
  has_window : bool;
  (** [process.env.NEXT_PUBLIC_OPENAI_API_KEY] *)
  OPENAI_API_KEY : option str;
  (** [pdfjsLib.getDocument({data, password}).promise] *)
  getDocument : list Byte.byte -> str -> outcome PdfDocument;
  (** [fetch] of the chat-completions endpoint, by bearer key and prompt *)
  fetch : str -> str -> outcome Response;
  (** message of the [SyntaxError] that [JSON.parse] throws on a text *)
  syntaxErrorMessage : str -> str;
  (** message of the [SyntaxError] of a [response.json()] that rejects *)
  bodyErrorMessage : str;
  (** message of the [TypeError] for reading a property of [null] *)
  nullAccessMessage : str;
  (** [String(n)] for the number that a lexeme denotes *)
  numberToString : str -> str;
  (** message of the [TypeError] for converting an object to a string
      when its [toString] is not a function *)
  toPrimitiveMessage : str;
  (** message of the [TypeError] for calling [match] on a value that has
      no such method *)
  notAFunctionMessage : str;
  (** message of the [TypeError] for destructuring [null] or [undefined] *)
  destructureMessage : str
}.

(* ================================================================= *)
(** ** Conversions of the language *)

Module Conversions.

(** The number that a lexeme denotes is zero: its digits are all [0], or
    its value is at most [2^-1075] and rounds to zero.  The value is
    [m * 10^e], for [m] the digits before and after the point and [e] the
    exponent less the number of digits after the point. *)
Definition number_is_zero (lexeme : str) : bool :=
  let s := match lexeme with
           | c :: r => if ch_is "-" c then r else lexeme
           | [] => []
           end in
  let (i, s1) := digits s in
  let (f, s2) := match s1 with
                 | c :: r => if ch_is "." c then digits r else ([], s1)
                 | [] => ([], [])
                 end in
  let x : Z := match s2 with
               | c :: g :: r =>
                 if ch_is "-" g then (- Z.of_N (digits_value r))%Z
                 else if ch_is "+" g then Z.of_N (digits_value r)
                 else Z.of_N (digits_value (g :: r))
               | _ => 0%Z
               end in
  let m := digits_value (i ++ f) in
  let e := (x - Z.of_nat (List.length f))%Z in
  N.eqb m 0
  || (Z.ltb e 0 && N.leb (m * 2 ^ 1075) (10 ^ Z.to_N (- e))).

(** [ToBoolean] of a parsed value. *)
Definition truthy (v : JSON.value) : bool :=
  match v with
  | JNull => false
  | JBool b => b
  | JNumber n => negb (number_is_zero n)
  | JString s => match s with [] => false | _ :: _ => true end
  | JArray _ | JObject _ => true
  end.

(** [x || y], for [x] possibly [undefined]. *)
Definition or_else (x : option JSON.value) (y : JSON.value) : JSON.value :=
  match x with
  | Some v => if truthy v then v else y
  | None => y
  end.

(** [ToString] of a parsed value.  An array joins the strings of its
    items with commas, [null] items giving nothing; an object gives
    [[object Object]], unless it has a key [toString] of its own, which
    hides the method: the conversion then throws. *)
Fixpoint ToString (env : Env) (v : JSON.value) {struct v} : outcome str :=
  match v with
  | JNull => inr (js "null")
  | JBool true => inr (js "true")
  | JBool false => inr (js "false")
  | JNumber n => inr (numberToString env n)
  | JString s => inr s
  | JArray items =>
    (fix join_items (l : list JSON.value) : outcome str :=
       match l with
       | [] => inr []
       | x :: r =>
         let* a := match x with
                   | JNull => inr []
                   | _ => ToString env x
                   end in
         match r with
         | [] => inr a
         | _ :: _ => let* b := join_items r in inr (a ++ js "," ++ b)
         end
       end) items
  | JObject o =>
    match obj_get (js "toString") o with
    | Some _ => inl (Error (toPrimitiveMessage env))
    | None => inr (js "[object Object]")
    end
  end.

End Conversions.
Import Conversions.

(* ================================================================= *)
(** ** The component *)

Module CreditCardParser.

Definition NOT_FOUND : str := js "Not Found".

(** [Array.prototype.join]. *)
Fixpoint join (sep : str) (xs : list str) : str :=
  match xs with
  | [] => []
  | [x] => x
  | x :: rest => x ++ sep ++ join sep rest
  end.

(** *** extractPdfText *)

Definition numPages (pdf : PdfDocument) : nat := List.length pdf.

(** [pdf.getPage(i)] then [page.getTextContent()], pages counted from 1. *)
Definition getPage (pdf : PdfDocument) (i : nat) : outcome TextContent :=
  match nth_error pdf (i - 1) with
  | Some p => p
  | None => inl (Error (js "Invalid page request."))
  end.

Definition pageText (items : TextContent) : str := join (js " ") items.

(** The [for] loop with [todo] iterations left, at page [i]. *)
Fixpoint pages_loop (pdf : PdfDocument) (todo i : nat) (out : str) : outcome str :=
  match todo with
  | O => inr out
  | S todo' =>
    let* items := getPage pdf i in
    pages_loop pdf todo' (S i) (out ++ pageText items ++ [nl])
  end.

(** The [then] callback: the loop runs [i] from 1 to [min(numPages, 3)]. *)
Definition document_text (pdf : PdfDocument) : outcome str :=
  pages_loop pdf (Nat.min (numPages pdf) 3) 1 [].

Definition extractPdfText (env : Env) (file : File) (pdfPassword : option str)
  : outcome str :=
  if negb (has_window env) then inl (Error (js "PDF.js not available"))
  else
    let* pdf := getDocument env (data file)
                  (match pdfPassword with Some p => p | None => [] end) in
    document_text pdf.

(** *** callOpenAI *)

(** The template literal of [callOpenAI]. *)
Definition prompt (text : str) : str :=
  [nl]
  ++ js "Extract the following fields in JSON format from the credit card statement text:" ++ [nl]
  ++ js "issuer, cardLast4, statementPeriod, dueDate, totalBalance, minimumPayment." ++ [nl]
  ++ js "If a field cannot be found, use " ++ [dquote] ++ NOT_FOUND ++ [dquote] ++ js "." ++ [nl]
  ++ [nl]
  ++ js "Statement text:" ++ [nl]
  ++ text ++ [nl].

(** [x?.k]: [None] is [undefined]; reading a property of [null] or
    [undefined] yields [undefined]; only objects carry the keys read. *)
Definition opt_prop (k : string) (x : option JSON.value) : option JSON.value :=
  match x with
  | Some (JObject o) => obj_get (js k) o
  | _ => None
  end.

(** [x?.[0]]. *)
Definition opt_first (x : option JSON.value) : option JSON.value :=
  match x with
  | Some (JArray items) => nth_error items 0
  | Some (JObject o) => obj_get (js "0") o
  | Some (JString (c :: _)) => Some (JString [c])
  | _ => None
  end.

Definition decimal (n : nat) : str := js (NilZero.string_of_uint (Nat.to_uint n)).

(** The value returned is the [content], a string by the type of the API
    and whatever the body holds in fact. *)
Definition callOpenAI (env : Env) (text : str) : outcome JSON.value :=
  match OPENAI_API_KEY env with
  | None | Some [] =>
    inl (Error (js "OpenAI API Key is not configured. Set NEXT_PUBLIC_OPENAI_API_KEY in .env"))
  | Some key =>
    let* response := fetch env key (prompt text) in
    if negb (ok response) then
      let errorJson := json response in
      let* msg := ToString env
                    (or_else (opt_prop "message" (opt_prop "error" errorJson))
                       (JString (js "OpenAI API error: " ++ decimal (status response)))) in
      inl (Error msg)
    else
      match json response with
      | None => inl (Error (bodyErrorMessage env))
      | Some JNull => inl (Error (nullAccessMessage env))
      | Some data =>
        inr (or_else (opt_prop "content" (opt_prop "message"
                        (opt_first (opt_prop "choices" (Some data)))))
               (JString []))
      end
  end.

(** *** parsePDF *)

(** The literal of the [catch] branch. *)
Definition default_record : JSON.value :=
  JObject [ (js "issuer", JString NOT_FOUND);
            (js "cardLast4", JString NOT_FOUND);
            (js "statementPeriod", JString NOT_FOUND);
            (js "dueDate", JString NOT_FOUND);
            (js "totalBalance", JString NOT_FOUND);
            (js "minimumPayment", JString NOT_FOUND) ].

(** The inner [try]/[catch] of [parsePDF]: the value assigned to [parsed],
    or the error that escapes the [catch] block. *)
Definition parseResponse (env : Env) (openAIResponse : str) : outcome JSON.value :=
  match JSON.parse openAIResponse with
  | Some parsed => inr parsed
  | None =>
    match Regex.exec openAIResponse with
    | Some jsonMatch0 =>
      match JSON.parse jsonMatch0 with
      | Some parsed => inr parsed
      | None => inl (Error (syntaxErrorMessage env jsonMatch0))
      end
    | None => inr default_record
    end
  end.

(** The same for an answer of any kind.  [JSON.parse] converts its
    argument to a string; when that, or the parsing, throws, the [catch]
    block calls [match], which only a string has. *)
Definition parseAnswer (env : Env) (openAIResponse : JSON.value) : outcome JSON.value :=
  match openAIResponse with
  | JString s => parseResponse env s
  | other =>
    match ToString env other with
    | inr s =>
      match JSON.parse s with
      | Some parsed => inr parsed
      | None => inl (Error (notAFunctionMessage env))
      end
    | inl _ => inl (Error (notAFunctionMessage env))
    end
  end.

(** The body of the outer [try]. *)
Definition pipeline (env : Env) (file : File) (pdfPassword : option str)
  : outcome JSON.value :=
  let* text := extractPdfText env file pdfPassword in
  let* openAIResponse := callOpenAI env text in
  parseAnswer env openAIResponse.

(** *** Component state *)

(** The [useState] cells.  [result] holds a JavaScript value, [JNull] for
    [null]. *)
Record State : Type := {
  file : option File;
  parsing : bool;
  result : JSON.value;
  error : str;
  dragActive : bool;
  password : str;
  needsPassword : bool;
  pendingFile : option File
}.

Definition initial : State :=
  {| file := None; parsing := false; result := JNull; error := [];
     dragActive := false; password := []; needsPassword := false;
     pendingFile := None |}.

Definition setFile (f : option File) (st : State) : State :=
  {| file := f; parsing := parsing st; result := result st; error := error st;
     dragActive := dragActive st; password := password st;
     needsPassword := needsPassword st; pendingFile := pendingFile st |}.

Definition setParsing (b : bool) (st : State) : State :=
  {| file := file st; parsing := b; result := result st; error := error st;
     dragActive := dragActive st; password := password st;
     needsPassword := needsPassword st; pendingFile := pendingFile st |}.

Definition setResult (r : JSON.value) (st : State) : State :=
  {| file := file st; parsing := parsing st; result := r; error := error st;
     dragActive := dragActive st; password := password st;
     needsPassword := needsPassword st; pendingFile := pendingFile st |}.

Definition setError (e : str) (st : State) : State :=
  {| file := file st; parsing := parsing st; result := result st; error := e;
     dragActive := dragActive st; password := password st;
     needsPassword := needsPassword st; pendingFile := pendingFile st |}.

Definition setDragActive (b : bool) (st : State) : State :=
  {| file := file st; parsing := parsing st; result := result st; error := error st;
     dragActive := b; password := password st;
     needsPassword := needsPassword st; pendingFile := pendingFile st |}.

Definition setPassword (p : str) (st : State) : State :=
  {| file := file st; parsing := parsing st; result := result st; error := error st;
     dragActive := dragActive st; password := p;
     needsPassword := needsPassword st; pendingFile := pendingFile st |}.

Definition setNeedsPassword (b : bool) (st : State) : State :=
  {| file := file st; parsing := parsing st; result := result st; error := error st;
     dragActive := dragActive st; password := password st;
     needsPassword := b; pendingFile := pendingFile st |}.

Definition setPendingFile (f : option File) (st : State) : State :=
  {| file := file st; parsing := parsing st; result := result st; error := error st;
     dragActive := dragActive st; password := password st;
     needsPassword := needsPassword st; pendingFile := f |}.

(** Setters applied in program order. *)
Notation "st |> f" := (f st) (at level 45, left associativity, only parsing).

(** *** parsePDF, in its two halves *)

(** Up to the first [await]: runs inside the event handler. *)
Definition parsePDF_begin (st : State) : State :=
  st |> setParsing true |> setError [] |> setResult JNull |> setNeedsPassword false.

Definition PASSWORD_MESSAGE : str :=
  js "This PDF is password protected. Please enter the correct password below.".

(** [err.message?.toLowerCase()?.includes('password')] *)
Definition mentions_password (err : thrown) : bool :=
  match message err with
  | Some m => includes (toLowerCase m) (js "password")
  | None => false
  end.

(** [err.message || 'Failed to parse PDF'] *)
Definition message_or_default (err : thrown) : str :=
  match message err with
  | Some (c :: m) => c :: m
  | _ => js "Failed to parse PDF"
  end.

(** After the awaited pipeline has settled with [r]: the rest of the
    [try], or the [catch], and then the [finally]. *)
Definition parsePDF_settle (file : File) (r : outcome JSON.value) (st : State) : State :=
  match r with
  | inr parsed =>
    st |> setResult parsed |> setNeedsPassword false |> setPendingFile None
       |> setPassword [] |> setParsing false
  | inl err =>
    if mentions_password err then
      st |> setNeedsPassword true |> setPendingFile (Some file)
         |> setError PASSWORD_MESSAGE |> setParsing false
    else
      st |> setError (message_or_default err) |> setParsing false
  end.

(** *** Handlers and the event loop *)

(** A call of [parsePDF] that has not settled yet. *)
Record Call : Type := { call_file : File; call_password : option str }.

(** The component between two events: its state, and the calls of
    [parsePDF] in flight, oldest first. *)
Record Sys : Type := { ui : State; inflight : list Call }.

Definition start : Sys := {| ui := initial; inflight := [] |}.

(** [parsePDF(file, pdfPassword)] as called from a handler. *)
Definition parsePDF (file : File) (pdfPassword : option str) (s : Sys) : Sys :=
  {| ui := parsePDF_begin (ui s);
     inflight := inflight s ++ [ {| call_file := file; call_password := pdfPassword |} ] |}.

Definition on_ui (f : State -> State) (s : Sys) : Sys :=
  {| ui := f (ui s); inflight := inflight s |}.

Inductive DragType : Type := dragenter | dragover | dragleave | drop.

Definition handleDrag (t : DragType) (s : Sys) : Sys :=
  match t with
  | dragenter | dragover => on_ui (setDragActive true) s
  | dragleave => on_ui (setDragActive false) s
  | drop => s
  end.

Definition handleDrop (files : list File) (s : Sys) : Sys :=
  let s := on_ui (setDragActive false) s in
  match files with
  | droppedFile :: _ =>
    if str_eqb (type droppedFile) (js "application/pdf") then
      parsePDF droppedFile None (on_ui (setFile (Some droppedFile)) s)
    else on_ui (setError (js "Please upload a PDF file")) s
  | [] => s
  end.

Definition handleFileChange (files : list File) (s : Sys) : Sys :=
  match files with
  | selectedFile :: _ =>
    parsePDF selectedFile None
      (on_ui (setPassword []) (on_ui (setFile (Some selectedFile)) s))
  | [] => s
  end.

Definition handlePasswordSubmit (s : Sys) : Sys :=
  match pendingFile (ui s), password (ui s) with
  | Some f, c :: p => parsePDF f (Some (c :: p)) s
  | _, _ => s
  end.

Inductive Event : Type :=
| Drag (t : DragType)
| Drop (files : list File)
| FileChange (files : list File)
| PasswordInput (value : str)
| PasswordSubmit
| Settle (k : nat).

Fixpoint remove_nth {A : Type} (k : nat) (l : list A) : list A :=
  match k, l with
  | _, [] => []
  | O, _ :: l' => l'
  | S k', x :: l' => x :: remove_nth k' l'
  end.

(** The [k]-th call in flight settles: the continuation of that call runs
    on the state of the moment. *)
Definition settle (env : Env) (k : nat) (s : Sys) : Sys :=
  match nth_error (inflight s) k with
  | Some c =>
    {| ui := parsePDF_settle (call_file c)
               (pipeline env (call_file c) (call_password c)) (ui s);
       inflight := remove_nth k (inflight s) |}
  | None => s
  end.

Definition step (env : Env) (s : Sys) (e : Event) : Sys :=
  match e with
  | Drag t => handleDrag t s
  | Drop files => handleDrop files s
  | FileChange files => handleFileChange files s
  | PasswordInput v => on_ui (setPassword v) s
  | PasswordSubmit => handlePasswordSubmit s
  | Settle k => settle env k s
  end.

Definition run (env : Env) (s : Sys) (es : list Event) : Sys :=
  fold_left (step env) es s.

(** What the page lets the user do: the file input carries
    [disabled={parsing}], the submit button of the password form
    [disabled={!password || parsing}] and the form is rendered under
    [needsPassword]; the drop zone is always live. *)
Definition enabled (s : Sys) (e : Event) : bool :=
  match e with
  | FileChange _ => negb (parsing (ui s))
  | PasswordInput _ => needsPassword (ui s)
  | PasswordSubmit =>
    needsPassword (ui s) && negb (parsing (ui s))
    && match password (ui s) with [] => false | _ :: _ => true end
  | Settle k => match nth_error (inflight s) k with Some _ => true | None => false end
  | Drag _ | Drop _ => true
  end.

Fixpoint feasible (env : Env) (s : Sys) (es : list Event) : bool :=
  match es with
  | [] => true
  | e :: es' => enabled s e && feasible env (step env s e) es'
  end.

(** The pipeline states of the specification, as the page shows them:
    the spinner under [parsing], the password form under [needsPassword],
    the result card under a [result] that is not [null], the error box
    under a non-empty [error]. *)
Inductive PipelineState : Type :=
| Idle | Extracting | AwaitingCredential | Succeeded | Failed.

Definition phase (st : State) : PipelineState :=
  if parsing st then Extracting
  else if needsPassword st then AwaitingCredential
  else if truthy (result st) then Succeeded
  else match error st with
       | [] => Idle
       | _ :: _ => Failed
       end.

End CreditCardParser.
Import CreditCardParser.

(* ================================================================= *)
(** ** The API route *)

(** The handler of the text-generation route, the second place where a
    model answer is parsed. *)
Module ApiRoute.

Record Request : Type := {
  method : str;
  (** [req.body] as the framework parsed it, [None] for [undefined] *)
  body : option JSON.value
}.

(** [res.status(code).json(payload)], or [.end()] for no payload. *)
Record Reply : Type := { statusCode : nat; payload : option JSON.value }.

Definition error_payload (msg : str) : option JSON.value :=
  Some (JObject [(js "error", JString msg)]).

(** The template literal of the handler. *)
Definition prompt (pdfText : str) : str :=
  js "[INST] You are an expert at extracting credit card statement data. Extract the following fields in strict JSON format from the given text:" ++ [nl]
  ++ [nl]
  ++ js "{" ++ [nl]
  ++ jq "  'issuer': ''," ++ [nl]
  ++ jq "  'cardLast4': ''," ++ [nl]
  ++ jq "  'statementPeriod': ''," ++ [nl]
  ++ jq "  'dueDate': ''," ++ [nl]
  ++ jq "  'totalBalance': ''," ++ [nl]
  ++ jq "  'minimumPayment': ''" ++ [nl]
  ++ js "}" ++ [nl]
  ++ [nl]
  ++ jq "If a field is missing, use 'Not Found'." ++ [nl]
  ++ [nl]
  ++ js "Here is the statement text:" ++ [nl]
  ++ js "<<<" ++ [nl]
  ++ pdfText ++ [nl]
  ++ js ">>>" ++ [nl]
  ++ js "[/INST]".

(** White space and line terminators, which [String.prototype.trim]
    strips. *)
Definition is_space (c : char) : bool :=
  existsb (N.eqb c)
    [9; 10; 11; 12; 13; 32; 160; 5760; 8232; 8233; 8239; 8287; 12288; 65279]%N
  || (N.leb 8192 c && N.leb c 8202).

Fixpoint trimStart (s : str) : str :=
  match s with
  | c :: r => if is_space c then trimStart r else s
  | [] => []
  end.

Definition trim (s : str) : str := rev (trimStart (rev (trimStart s))).

(** The inner [try]/[catch] of the handler: the value of [parsed], [JNull]
    for [null], or the error that escapes. *)
Definition parseGenerated (env : Env) (text : str) : outcome JSON.value :=
  match JSON.parse (trim text) with
  | Some parsed => inr parsed
  | None =>
    if str_eqb (trim text) NOT_FOUND
       || match trim text with [] => true | _ :: _ => false end
    then inr default_record
    else
      match Regex.exec text with
      | Some jsonMatch0 =>
        match JSON.parse jsonMatch0 with
        | Some parsed => inr parsed
        | None => inl (Error (syntaxErrorMessage env jsonMatch0))
        end
      | None => inr JNull
      end
  end.

(** [err.message || "Server Error"] *)
Definition message_or_server_error (err : thrown) : str :=
  match message err with
  | Some (c :: m) => c :: m
  | _ => js "Server Error"
  end.

(** The handler; [textGeneration] maps the prompt to the text that
    [response.generated_text ?? response[0]?.generated_text ?? (the empty string)] reads
    off the client's answer, or to the client's error.  [inl] is an error
    that leaves the handler: the destructuring of a missing body and the
    template literal come before the [try]. *)
Definition handler (env : Env) (textGeneration : str -> outcome str)
                   (req : Request) : outcome Reply :=
  if negb (str_eqb (method req) (js "POST")) then
    inr {| statusCode := 405; payload := None |}
  else
    match body req with
    | None | Some JNull => inl (Error (destructureMessage env))
    | Some b =>
      let pdfText := opt_prop "pdfText" (Some b) in
      match pdfText with
      | None => inr {| statusCode := 400; payload := error_payload (js "Missing PDF text") |}
      | Some p =>
        if negb (truthy p) then
          inr {| statusCode := 400; payload := error_payload (js "Missing PDF text") |}
        else
          let* doc := ToString env p in
          inr match (let* text := textGeneration (prompt doc) in parseGenerated env text) with
              | inr parsed =>
                if negb (truthy parsed) then
                  {| statusCode := 500;
                     payload := error_payload (js "Failed to parse model output") |}
                else {| statusCode := 200; payload := Some parsed |}
              | inl err =>
                {| statusCode := 500;
                   payload := error_payload (message_or_server_error err) |}
              end
      end
    end.

End ApiRoute.

(* ================================================================= *)
(** ** The record of the specification *)

Module Record.

(** The six keys of [ParsedData]. *)
Definition FIELDS : list str :=
  [ js "issuer"; js "cardLast4"; js "statementPeriod";
    js "dueDate"; js "totalBalance"; js "minimumPayment" ].

(** [v.k], [None] for [undefined]. *)
Definition field (k : str) (v : JSON.value) : option JSON.value :=
  match v with
  | JObject o => obj_get k o
  | _ => None
  end.

(** The key is present and its value is not [null]. *)
Definition present (k : str) (v : JSON.value) : bool :=
  match field k v with
  | Some JNull | None => false
  | Some _ => true
  end.

(** All six keys are present, none of them [null]. *)
Definition complete (v : JSON.value) : bool :=
  forallb (fun k => present k v) FIELDS.

(** The value is an object whose keys are the six keys and no other. *)
Definition exactly_six_keys (v : JSON.value) : bool :=
  match v with
  | JObject o =>
    complete v
    && forallb (fun k => existsb (str_eqb k) FIELDS) (keys o)
    && Nat.eqb (List.length o) 6
  | _ => false
  end.

(** All six fields hold the sentinel. *)
Definition all_not_found (v : JSON.value) : bool :=
  forallb (fun k => match field k v with
                    | Some (JString s) => str_eqb s NOT_FOUND
                    | _ => false
                    end) FIELDS.

(** A flat object of string members. *)
Definition record_of (members : list (str * str)) : JSON.value :=
  JObject (map (fun kv => (fst kv, JString (snd kv))) members).

(** A character that stands for itself inside a JSON string. *)
Definition plain_char (c : char) : bool :=
  negb (N.eqb c dquote) && negb (N.eqb c backslash) && negb (N.ltb c 32).

Definition plain (s : str) : bool := forallb plain_char s.

Definition quoted (s : str) : str := dquote :: s ++ [dquote].

Definition member_text (kv : str * str) : str :=
  quoted (fst kv) ++ js ":" ++ quoted (snd kv).

(** The compact JSON text of a flat object of string members. *)
Definition object_text (members : list (str * str)) : str :=
  js "{" ++ join (js ",") (map member_text members) ++ js "}".

(** The value, among [members], of the key [k]. *)
Fixpoint lookup (k : str) (members : list (str * str)) : option str :=
  match members with
  | [] => None
  | (k', v) :: rest => if str_eqb k k' then Some v else lookup k rest
  end.

Definition plain_member (kv : str * str) : Prop :=
  plain (fst kv) = true /\ plain (snd kv) = true.

(** One step of [JSON.parse] building an object: the member is written
    into the properties read so far. *)
Definition put (o : list (str * JSON.value)) (kv : str * str) :=
  obj_set (fst kv) (JString (snd kv)) o.

End Record.

(* ================================================================= *)
(** ** Notions used to state the properties *)

Module Terms.

(** The character [a] occurs in [s]. *)
Definition has (a : ascii) (s : str) : bool := existsb (ch_is a) s.

(** Everything the prompt says before the statement text, and the line
    feed that ends it. *)
Definition PROMPT_HEAD : str := Eval cbv in prompt [].

(** What the loop of [extractPdfText] appends for one page. *)
Definition page_line (t : TextContent) : str := pageText t ++ [nl].

(** A submission of one document: through the file input, or through the
    drop zone for a file whose type is PDF. *)
Definition submits (e : Event) (f : File) : Prop :=
  e = FileChange [f] \/ (e = Drop [f] /\ type f = js "application/pdf").

(** The pages in order, each decoded page adding its line; the first page
    that does not decode ends the reading with its error. *)
Fixpoint read_pages (pages : PdfDocument) (out : str) : outcome str :=
  match pages with
  | [] => inr out
  | p :: rest =>
    let* items := p in
    read_pages rest (out ++ pageText items ++ [nl])
  end.

(** The environment with another [fetch]. *)
Definition with_fetch (env : Env) (f : str -> str -> outcome Response) : Env :=
  {| has_window := has_window env;
     OPENAI_API_KEY := OPENAI_API_KEY env;
     getDocument := getDocument env;
     fetch := f;
     syntaxErrorMessage := syntaxErrorMessage env;
     bodyErrorMessage := bodyErrorMessage env;
     nullAccessMessage := nullAccessMessage env;
     numberToString := numberToString env;
     toPrimitiveMessage := toPrimitiveMessage env;
     notAFunctionMessage := notAFunctionMessage env;
     destructureMessage := destructureMessage env |}.

Definition CONFIG_MESSAGE : str :=
  js "OpenAI API Key is not configured. Set NEXT_PUBLIC_OPENAI_API_KEY in .env".

(** [data.choices?.[0]?.message?.content] *)
Definition completion_content (data : JSON.value) : option JSON.value :=
  opt_prop "content" (opt_prop "message" (opt_first (opt_prop "choices" (Some data)))).

(** [errorJson?.error?.message] *)
Definition error_message (errorJson : option JSON.value) : option JSON.value :=
  opt_prop "message" (opt_prop "error" errorJson).

(** Everything the prompt of the API route says before its [<<<] line. *)
Definition ROUTE_PROMPT_HEAD : str :=
  Eval cbv in firstn (List.length (ApiRoute.prompt []) - 16) (ApiRoute.prompt []).

(** What every reachable state satisfies. *)
Definition Inv (s : Sys) : Prop :=
  (inflight s = [] -> parsing (ui s) = false)
  /\ (needsPassword (ui s) = true -> pendingFile (ui s) <> None).

(** A POST request to the API route with a document text. *)
Definition post (doc : str) : ApiRoute.Request :=
  {| ApiRoute.method := js "POST";
     ApiRoute.body := Some (JObject [(js "pdfText", JString doc)]) |}.

(** What the [try] block replies for a document text [doc]. *)
Definition answer (env : Env) (gen : str -> outcome str) (doc : str) : ApiRoute.Reply :=
  match (let* text := gen (ApiRoute.prompt doc) in ApiRoute.parseGenerated env text) with
  | inr parsed =>
    if negb (truthy parsed) then
      {| ApiRoute.statusCode := 500; ApiRoute.payload := ApiRoute.error_payload (js "Failed to parse model output") |}
    else {| ApiRoute.statusCode := 200; ApiRoute.payload := Some parsed |}
  | inl err =>
    {| ApiRoute.statusCode := 500; ApiRoute.payload := ApiRoute.error_payload (ApiRoute.message_or_server_error err) |}
  end.

(** One try of a password: typing it, submitting the form, and the call
    settling. *)
Definition attempt (pw : str) : list Event :=
  [PasswordInput pw; PasswordSubmit; Settle 0].

End Terms.
Import Terms.

(* ================================================================= *)
(** ** Scenarios: a browser, three documents and a scripted model *)

Module Scenario.

Definition pdf : str := js "application/pdf".

Definition statementA : File :=
  {| name := js "chase.pdf"; type := pdf; data := [Byte.x01] |}.
Definition statementB : File :=
  {| name := js "amex.pdf"; type := pdf; data := [Byte.x02] |}.
Definition locked : File :=
  {| name := js "locked.pdf"; type := pdf; data := [Byte.x03] |}.

(** Messages of PDF.js's [PasswordException]. *)
Definition NEED_PASSWORD : str := js "No password given".
Definition INCORRECT_PASSWORD : str := js "Incorrect Password".

Definition secret : str := js "s3cret".

Definition open_document (bytes : list Byte.byte) (pw : str) : outcome PdfDocument :=
  match bytes with
  | [Byte.x01] => inr [inr [js "Chase"; js "Sapphire"]; inr [js "Due"; js "Jan"; js "5"]]
  | [Byte.x02] => inr [inr [js "Amex"; js "Gold"]]
  | [Byte.x03] =>
    match pw with
    | [] => inl (Error NEED_PASSWORD)
    | _ :: _ => if str_eqb pw secret then inr [inr [js "Citi"]]
                else inl (Error INCORRECT_PASSWORD)
    end
  | _ => inl (Error (js "Invalid PDF structure."))
  end.

(** A chat completion whose first choice says [content]. *)
Definition completion (content : str) : Response :=
  {| ok := true; status := 200;
     json := Some (JObject
       [ (js "choices",
          JArray [ JObject
            [ (js "index", JNumber (js "0"));
              (js "message", JObject [ (js "role", JString (js "assistant"));
                                       (js "content", JString content) ]) ] ]) ]) |}.

(** An error response of the API. *)
Definition api_error (code : nat) (msg : str) : Response :=
  {| ok := false; status := code;
     json := Some (JObject [ (js "error", JObject [ (js "message", JString msg) ]) ]) |}.

(** A browser in which the model answers a prompt by [reply]. *)
Definition browser (reply : str -> outcome Response) : Env :=
  {| has_window := true;
     OPENAI_API_KEY := Some (js "sk-test");
     getDocument := open_document;
     fetch := fun _ prompt => reply prompt;
     syntaxErrorMessage := fun _ => js "Unexpected token in JSON";
     bodyErrorMessage := js "Unexpected end of JSON input";
     nullAccessMessage := js "Cannot read properties of null (reading 'choices')";
     numberToString := fun lexeme => lexeme;
     toPrimitiveMessage := js "Cannot convert object to primitive value";
     notAFunctionMessage := js "openAIResponse.match is not a function";
     destructureMessage := js "Cannot destructure property 'pdfText' of 'req.body' as it is null." |}.

(** The model always says [content]. *)
Definition saying (content : str) : Env := browser (fun _ => inr (completion content)).

(** The model names the issuer it reads in the prompt. *)
Definition by_issuer (prompt : str) : outcome Response :=
  if includes prompt (js "Chase") then inr (completion (jq "{'issuer':'Chase'}"))
  else if includes prompt (js "Amex") then inr (completion (jq "{'issuer':'Amex'}"))
  else inr (completion (jq "{'issuer':'Citi'}")).

(** The example of the specification. *)
Definition prose_example : str :=
  jq "Here is the data: {'issuer':'Chase','cardLast4':'1234','statementPeriod':'Not Found','dueDate':'Not Found','totalBalance':'Not Found','minimumPayment':'Not Found'} Let me know if needed.".

Definition prose_example_record : JSON.value :=
  Record.record_of
    [ (js "issuer", js "Chase"); (js "cardLast4", js "1234");
      (js "statementPeriod", NOT_FOUND); (js "dueDate", NOT_FOUND);
      (js "totalBalance", NOT_FOUND); (js "minimumPayment", NOT_FOUND) ].

End Scenario.

(* ================================================================= *)
(** * Properties *)

(** ** Strings *)

Lemma str_eqb_eq a b : str_eqb a b = true <-> a = b.
Proof. unfold str_eqb; destruct (list_eq_dec N.eq_dec a b); split; congruence. Qed.

Lemma str_eqb_refl a : str_eqb a a = true.
Proof. now apply str_eqb_eq. Qed.

Lemma strip_prefix_length p s r :
  strip_prefix p s = Some r -> List.length s = List.length p + List.length r.
Proof.
  revert s; induction p as [|a p IH]; intros [|b s]; simpl; try congruence.
  - intros [= <-]; reflexivity.
  - intros [= <-]; reflexivity.
  - destruct (N.eqb a b); [|discriminate]. intros H; apply IH in H; lia.
Qed.

Lemma strip_prefix_app p s : strip_prefix p (p ++ s) = Some s.
Proof. induction p as [|a p IH]; simpl; [reflexivity|]. now rewrite N.eqb_refl. Qed.

(** ** [JSON.parse] never runs out of budget *)

Module JSONFacts.

Lemma skip_ws_length s : List.length (skip_ws s) <= List.length s.
Proof.
  induction s as [|c s IH]; simpl; [lia|].
  destruct (is_ws c); simpl; lia.
Qed.

Lemma string_chars_length s : forall t r,
  string_chars s = Some (t, r) -> List.length r < List.length s.
Proof.
  induction s as [s IH] using (Wf_nat.induction_ltof1 _ (@List.length char)).
  unfold Wf_nat.ltof in IH.
  intros t r; destruct s as [|c s]; simpl; [discriminate|].
  destruct (N.eqb c dquote).
  { intros [= _ <-]; lia. }
  destruct (N.eqb c backslash).
  { destruct s as [|e s]; [discriminate|].
    destruct (ch_is "u" e).
    - destruct s as [|h1 [|h2 [|h3 [|h4 s]]]]; try discriminate.
      destruct (hex4 h1 h2 h3 h4); [|discriminate].
      destruct (string_chars s) as [[t' r']|] eqn:E; [|discriminate].
      intros [= _ <-]. apply IH in E; simpl in *; lia.
    - destruct (escape e); [|discriminate].
      destruct (string_chars s) as [[t' r']|] eqn:E; [|discriminate].
      intros [= _ <-]. apply IH in E; simpl in *; lia. }
  destruct (N.ltb c 32); [discriminate|].
  destruct (string_chars s) as [[t' r']|] eqn:E; [|discriminate].
  intros [= _ <-]. apply IH in E; simpl in *; lia.
Qed.

Lemma digits_length s : forall d r,
  digits s = (d, r) -> List.length r <= List.length s.
Proof.
  induction s as [|c s IH]; simpl; intros d r.
  - intros [= _ <-]; simpl; lia.
  - destruct (is_digit c).
    + destruct (digits s) as [d' r'] eqn:E. intros [= _ <-].
      specialize (IH _ _ eq_refl); lia.
    + intros [= _ <-]; simpl; lia.
Qed.

Lemma int_part_length s i r :
  int_part s = Some (i, r) -> List.length r < List.length s.
Proof.
  destruct s as [|c s]; simpl; [discriminate|].
  destruct (ch_is "0" c); [intros [= _ <-]; lia|].
  destruct (is_digit c); [|discriminate].
  destruct (digits s) as [d' r'] eqn:E. intros [= _ <-].
  apply digits_length in E; lia.
Qed.

Lemma frac_part_length s f r :
  frac_part s = Some (f, r) -> List.length r <= List.length s.
Proof.
  destruct s as [|c s]; simpl; [intros [= _ <-]; simpl; lia|].
  destruct (ch_is "." c); [|intros [= _ <-]; simpl; lia].
  destruct (digits s) as [d' r'] eqn:E.
  apply digits_length in E. destruct d'; [discriminate|].
  intros [= _ <-]; lia.
Qed.

Lemma exp_digits_length pre s e r :
  exp_digits pre s = Some (e, r) -> List.length r <= List.length s.
Proof.
  unfold exp_digits. destruct (digits s) as [d' r'] eqn:E.
  apply digits_length in E. destruct d'; [discriminate|].
  intros [= _ <-]; lia.
Qed.

Lemma exp_part_length s e r :
  exp_part s = Some (e, r) -> List.length r <= List.length s.
Proof.
  destruct s as [|c s]; simpl; [intros [= _ <-]; simpl; lia|].
  destruct (ch_is "e" c || ch_is "E" c); [|intros [= _ <-]; simpl; lia].
  destruct s as [|g s]; [discriminate|].
  destruct (ch_is "+" g || ch_is "-" g); intros H;
    apply exp_digits_length in H; simpl in *; lia.
Qed.

Lemma number_length s n r :
  number s = Some (n, r) -> List.length r < List.length s.
Proof.
  unfold number.
  set (p := match s with
            | [] => ([], [])
            | c :: r0 => if ch_is "-" c then ([c], r0) else ([], s)
            end).
  assert (Hp : List.length (snd p) <= List.length s).
  { subst p; destruct s as [|c s]; simpl; [lia|].
    destruct (ch_is "-" c); simpl; lia. }
  destruct p as [sign s1]; simpl in Hp.
  destruct (int_part s1) as [[i s2]|] eqn:Ei; [|discriminate].
  destruct (frac_part s2) as [[f s3]|] eqn:Ef; [|discriminate].
  destruct (exp_part s3) as [[e s4]|] eqn:Ee; [|discriminate].
  intros [= _ <-].
  apply int_part_length in Ei. apply frac_part_length in Ef.
  apply exp_part_length in Ee. lia.
Qed.

Lemma literal_length w v s v' r :
  literal w v s = Ok v' r -> List.length r < List.length s \/ js w = [].
Proof.
  unfold literal. destruct (strip_prefix (js w) s) eqn:E; [|discriminate].
  intros [= _ <-]. apply strip_prefix_length in E.
  destruct (js w); [now right|left; simpl in *; lia].
Qed.

Lemma literal_consumes w v s v' r :
  js w <> [] -> literal w v s = Ok v' r -> List.length r < List.length s.
Proof. intros Hw H. apply literal_length in H. tauto. Qed.

(** One unfolding of each function of the grammar. *)
Lemma parse_value_S f s :
  parse_value (S f) s =
  match skip_ws s with
  | [] => SyntaxErr
  | c :: r =>
    if ch_is "{" c then
      match skip_ws r with
      | [] => SyntaxErr
      | c' :: r' => if ch_is "}" c' then Ok (JObject []) r' else members f (c' :: r') []
      end
    else if ch_is "[" c then
      match skip_ws r with
      | [] => SyntaxErr
      | c' :: r' => if ch_is "]" c' then Ok (JArray []) r' else elements f (c' :: r') []
      end
    else if N.eqb c dquote then
      match string_chars r with
      | Some (t, rest) => Ok (JString t) rest
      | None => SyntaxErr
      end
    else if ch_is "-" c || is_digit c then
      match number (c :: r) with
      | Some (n, rest) => Ok (JNumber n) rest
      | None => SyntaxErr
      end
    else if ch_is "t" c then literal "true" (JBool true) (c :: r)
    else if ch_is "f" c then literal "false" (JBool false) (c :: r)
    else if ch_is "n" c then literal "null" JNull (c :: r)
    else SyntaxErr
  end.
Proof. reflexivity. Qed.

Lemma elements_S f s acc :
  elements (S f) s acc =
  match parse_value f s with
  | Ok v r =>
    match skip_ws r with
    | [] => SyntaxErr
    | c :: r' =>
      if ch_is "," c then elements f r' (acc ++ [v])
      else if ch_is "]" c then Ok (JArray (acc ++ [v])) r'
      else SyntaxErr
    end
  | SyntaxErr => SyntaxErr
  | OutOfFuel => OutOfFuel
  end.
Proof. reflexivity. Qed.

Lemma members_S f s acc :
  members (S f) s acc =
  match skip_ws s with
  | [] => SyntaxErr
  | q :: r =>
    if N.eqb q dquote then
      match string_chars r with
      | None => SyntaxErr
      | Some (k, r1) =>
        match skip_ws r1 with
        | [] => SyntaxErr
        | c1 :: r2 =>
          if ch_is ":" c1 then
            match parse_value f r2 with
            | Ok v r3 =>
              match skip_ws r3 with
              | [] => SyntaxErr
              | c3 :: r4 =>
                if ch_is "," c3 then members f r4 (obj_set k v acc)
                else if ch_is "}" c3 then Ok (JObject (obj_set k v acc)) r4
                else SyntaxErr
              end
            | SyntaxErr => SyntaxErr
            | OutOfFuel => OutOfFuel
            end
          else SyntaxErr
        end
      end
    else SyntaxErr
  end.
Proof. reflexivity. Qed.

(** Splits on the scrutinee of the innermost [match] or [if] of the goal
    or of hypothesis [H], remembering lengths of skipped white space. *)
Ltac split_match H :=
  match type of H with
  | context [match skip_ws ?s with _ => _ end] =>
    let E := fresh "Ews" in
    pose proof (skip_ws_length s) as E;
    destruct (skip_ws s) eqn:?; simpl in E
  | context [match string_chars ?s with _ => _ end] =>
    let E := fresh "Estr" in
    destruct (string_chars s) as [[? ?]|] eqn:E;
    [apply string_chars_length in E|]
  | context [match number ?s with _ => _ end] =>
    let E := fresh "Enum" in
    destruct (number s) as [[? ?]|] eqn:E;
    [apply number_length in E|]
  | context [if ?b then _ else _] => destruct b eqn:?
  end.

(** Every function of the grammar that succeeds has read something. *)
Lemma grammar_consumes fuel :
  (forall s v r, parse_value fuel s = Ok v r -> List.length r < List.length s)
  /\ (forall s acc v r, elements fuel s acc = Ok v r -> List.length r < List.length s)
  /\ (forall s acc v r, members fuel s acc = Ok v r -> List.length r < List.length s).
Proof.
  induction fuel as [|f (IHv & IHe & IHm)]; [repeat split; discriminate|].
  repeat split.
  - intros s v r H. rewrite parse_value_S in H.
    repeat split_match H; try discriminate;
      try (injection H as <- <-; simpl in *; lia);
      try (apply IHm in H; simpl in *; lia);
      try (apply IHe in H; simpl in *; lia);
      try (apply literal_consumes in H; [simpl in *; lia|discriminate]).
  - intros s acc v r H. rewrite elements_S in H.
    destruct (parse_value f s) as [v0 r0| |] eqn:Ev; try discriminate.
    apply IHv in Ev.
    repeat split_match H; try discriminate;
      try (injection H as <- <-; simpl in *; lia);
      try (apply IHe in H; simpl in *; lia).
  - intros s acc v r H. rewrite members_S in H.
    repeat split_match H; try discriminate.
    destruct (parse_value f _) as [v0 r0| |] eqn:Ev; try discriminate.
    apply IHv in Ev.
    repeat split_match H; try discriminate;
      try (injection H as <- <-; simpl in *; lia);
      try (apply IHm in H; simpl in *; lia).
Qed.

Lemma parse_value_consumes fuel s v r :
  parse_value fuel s = Ok v r -> List.length r < List.length s.
Proof. apply grammar_consumes. Qed.

(** A budget of twice the length of the input, and one more, is never
    used up. *)
Lemma grammar_fuel fuel :
  (forall s, 2 * List.length s + 1 <= fuel -> parse_value fuel s <> OutOfFuel)
  /\ (forall s acc, 2 * List.length s + 2 <= fuel -> elements fuel s acc <> OutOfFuel)
  /\ (forall s acc, 2 * List.length s + 2 <= fuel -> members fuel s acc <> OutOfFuel).
Proof.
  induction fuel as [|f (IHv & IHe & IHm)]; [repeat split; intros; lia|].
  repeat split.
  - intros s Hf H. rewrite parse_value_S in H.
    repeat split_match H; try discriminate;
      try (apply IHm in H; [exact H|simpl in *; lia]);
      try (apply IHe in H; [exact H|simpl in *; lia]);
      try (unfold literal in H; destruct (strip_prefix _ _); discriminate).
  - intros s acc Hf H. rewrite elements_S in H.
    destruct (parse_value f s) as [v0 r0| |] eqn:Ev; try discriminate.
    + apply parse_value_consumes in Ev.
      repeat split_match H; try discriminate.
      apply IHe in H; [exact H|simpl in *; lia].
    + apply IHv in Ev; [exact Ev|lia].
  - intros s acc Hf H. rewrite members_S in H.
    repeat split_match H; try discriminate.
    destruct (parse_value f _) as [v0 r0| |] eqn:Ev; try discriminate.
    + apply parse_value_consumes in Ev.
      repeat split_match H; try discriminate.
      apply IHm in H; [exact H|simpl in *; lia].
    + apply IHv in Ev; [exact Ev|simpl in *; lia].
Qed.

(** [JSON.parse] is defined on every text: the budget it passes is enough,
    so [None] always stands for a syntax error. *)
Lemma parse_value_fuel text : parse_value (fuel_for text) text <> OutOfFuel.
Proof. apply grammar_fuel. unfold fuel_for. lia. Qed.

End JSONFacts.

(** ** The regular expression *)

Module RegexFacts.
Import Regex.

Lemma to_last_close_none s : has "}" s = false -> to_last_close s = None.
Proof.
  induction s as [|c s IH]; simpl; [reflexivity|].
  intros H; apply orb_false_iff in H as [Hc Hs].
  now rewrite (IH Hs), Hc.
Qed.

(** Greedy: everything up to the last closing brace. *)
Lemma to_last_close_app body post :
  has "}" post = false ->
  to_last_close (body ++ N_of_ascii "}" :: post) = Some (body ++ [N_of_ascii "}"]).
Proof.
  intros Hpost; induction body as [|c body IH]; cbn [app to_last_close].
  - now rewrite (to_last_close_none _ Hpost).
  - now rewrite IH.
Qed.

Lemma match_here_not_open c s : ch_is "{" c = false -> match_here (c :: s) = None.
Proof. simpl; now intros ->. Qed.

Lemma exec_skip pre s : has "{" pre = false -> exec (pre ++ s) = exec s.
Proof.
  induction pre as [|c pre IH]; simpl; [reflexivity|].
  intros H; apply orb_false_iff in H as [Hc Hs].
  now rewrite Hc, (IH Hs).
Qed.

(** The match runs from the first opening brace to the last closing
    brace, when something lies between the two. *)
Lemma exec_first_to_last pre body post :
  has "{" pre = false -> has "}" post = false -> body <> [] ->
  exec (pre ++ (N_of_ascii "{" :: body ++ [N_of_ascii "}"]) ++ post)
  = Some (N_of_ascii "{" :: body ++ [N_of_ascii "}"]).
Proof.
  intros Hpre Hpost Hbody. rewrite exec_skip by assumption.
  destruct body as [|b body]; [congruence|].
  cbn [app exec match_here].
  replace (ch_is "{" (N_of_ascii "{")) with true by reflexivity.
  cbn [any_plus_close].
  rewrite <- app_assoc. cbn [app].
  now rewrite to_last_close_app.
Qed.

(** No match without a closing brace, and none without an opening one. *)
Lemma exec_no_close s : has "}" s = false -> exec s = None.
Proof.
  induction s as [|c s IH]; simpl; [reflexivity|].
  intros H; apply orb_false_iff in H as [Hc Hs].
  rewrite (IH Hs). destruct (ch_is "{" c); [|reflexivity].
  destruct s as [|d s]; [reflexivity|]. simpl in *.
  apply orb_false_iff in Hs as [Hd Hs].
  now rewrite (to_last_close_none _ Hs).
Qed.

Lemma exec_no_open s : has "{" s = false -> exec s = None.
Proof.
  intros H. rewrite <- (app_nil_r s). now rewrite exec_skip.
Qed.

Lemma ch_is_eq a c : ch_is a c = true -> c = N_of_ascii a.
Proof. unfold ch_is. apply N.eqb_eq. Qed.

Lemma to_last_close_has s : has "}" s = true -> to_last_close s <> None.
Proof.
  induction s as [|c s IH]; cbn [has existsb to_last_close]; [discriminate|].
  intros H. destruct (to_last_close s); [discriminate|].
  destruct (ch_is "}" c); [discriminate|].
  cbn [orb] in H. now apply IH in H.
Qed.

(** What the greedy tail returns: a prefix of the input that ends with a
    closing brace, with no closing brace after it. *)
Lemma to_last_close_some s : forall m,
  to_last_close s = Some m ->
  exists body post,
    m = body ++ [N_of_ascii "}"] /\ s = m ++ post /\ has "}" post = false.
Proof.
  induction s as [|c s IH]; cbn [to_last_close]; [discriminate|].
  intros m. destruct (to_last_close s) as [m'|] eqn:E.
  - intros [= <-]. destruct (IH m' eq_refl) as (body & post & -> & Hs & Hp).
    exists (c :: body), post. repeat split; [now rewrite Hs at 1|assumption].
  - destruct (ch_is "}" c) eqn:Ec; [|discriminate].
    intros [= <-]. apply ch_is_eq in Ec. subst c.
    exists [], s. repeat split.
    destruct (has "}" s) eqn:Eh; [|reflexivity].
    now apply to_last_close_has in Eh.
Qed.

(** The match, when there is one, runs from the first opening brace of
    the text to its last closing brace, and has something in between. *)
Lemma exec_some s : forall m,
  exec s = Some m ->
  exists pre body post,
    s = pre ++ m ++ post
    /\ m = N_of_ascii "{" :: body ++ [N_of_ascii "}"]
    /\ body <> []
    /\ has "{" pre = false /\ has "}" post = false.
Proof.
  induction s as [|c s IH]; intros m; [discriminate|].
  cbn [exec]. destruct (match_here (c :: s)) as [m0|] eqn:Eh.
  - intros [= <-]. cbn [match_here] in Eh.
    destruct (ch_is "{" c) eqn:Ec; [|discriminate].
    apply ch_is_eq in Ec. subst c.
    destruct s as [|d s]; [discriminate|]. cbn [any_plus_close] in Eh.
    destruct (to_last_close s) as [t|] eqn:Et; [|discriminate].
    cbn [option_map] in Eh. injection Eh as <-.
    destruct (to_last_close_some s t Et) as (body & post & -> & Hs & Hp).
    exists [], (d :: body), post. cbn [app has existsb].
    repeat split; [now rewrite Hs at 1|discriminate|assumption].
  - intros Hex. destruct (IH m Hex) as (pre & body & post & Hs & -> & Hb & Hpre & Hpost).
    exists (c :: pre), body, post. cbn [app has existsb].
    repeat split; [now rewrite Hs at 1|assumption| |assumption].
    fold (has "{" pre). rewrite Hpre, orb_false_r.
    destruct (ch_is "{" c) eqn:Ec; [|reflexivity]. exfalso.
    cbn [match_here] in Eh. rewrite Ec in Eh.
    destruct s as [|d s]; [destruct pre; discriminate|].
    cbn [any_plus_close] in Eh.
    assert (Hhas : has "}" s = true).
    { destruct pre as [|x pre]; cbn [app] in Hs; injection Hs as -> ->.
      - unfold has. rewrite existsb_app, existsb_app. cbn. now rewrite !orb_true_r.
      - unfold has. rewrite existsb_app. cbn [existsb]. rewrite existsb_app, existsb_app.
        cbn. now rewrite !orb_true_r. }
    apply to_last_close_has in Hhas.
    destruct (to_last_close s); [discriminate|congruence].
Qed.

End RegexFacts.

(* ================================================================= *)
(** ** The response parser *)

Module ParserFacts.
Import RegexFacts.

(** When the parser returns and when it throws, case by case. *)
Lemma parseResponse_cases env text :
  parseResponse env text =
  match JSON.parse text, Regex.exec text with
  | Some v, _ => inr v
  | None, None => inr default_record
  | None, Some m =>
    match JSON.parse m with
    | Some v => inr v
    | None => inl (Error (syntaxErrorMessage env m))
    end
  end.
Proof. unfold parseResponse. destruct (JSON.parse text); reflexivity. Qed.

(** A text without a closing brace, or without an opening one, never
    makes the parser throw. *)
Lemma parseResponse_no_brace env text :
  has "}" text = false \/ has "{" text = false ->
  exists v, parseResponse env text = inr v.
Proof.
  intros H. rewrite parseResponse_cases.
  assert (E : Regex.exec text = None)
    by (destruct H; [now apply exec_no_close | now apply exec_no_open]).
  rewrite E. destruct (JSON.parse text); eauto.
Qed.

(** The parser throws exactly when the text is not JSON and the matched
    brace span is not JSON either. *)
Lemma parseResponse_throws env text e :
  parseResponse env text = inl e <->
  JSON.parse text = None
  /\ exists m, Regex.exec text = Some m /\ JSON.parse m = None
               /\ e = Error (syntaxErrorMessage env m).
Proof.
  rewrite parseResponse_cases.
  destruct (JSON.parse text) as [v|]; [split; [discriminate|intros [[=] _]]|].
  destruct (Regex.exec text) as [m|].
  - destruct (JSON.parse m) as [v|] eqn:Em; split.
    + discriminate.
    + intros (_ & m' & [= <-] & Hm & _). congruence.
    + intros [= <-]. split; [reflexivity|]. now exists m.
    + intros (_ & m' & [= <-] & _ & ->). reflexivity.
  - split; [discriminate|]. intros (_ & m & [=] & _).
Qed.

(** C7: the parser applied to the empty string and applied to the text
    [Not Found] returns, in both cases, the default record, whose six
    fields all hold ["Not Found"]; so does the parser of the API route,
    also when white space surrounds the text. *)
Theorem parse_empty_and_sentinel_give_default env :
  parseResponse env [] = inr default_record
  /\ parseResponse env (js "Not Found") = inr default_record
  /\ ApiRoute.parseGenerated env [] = inr default_record
  /\ ApiRoute.parseGenerated env (js "Not Found") = inr default_record
  /\ ApiRoute.parseGenerated env (js "  Not Found " ++ [nl]) = inr default_record
  /\ Record.all_not_found default_record = true
  /\ Record.exactly_six_keys default_record = true.
Proof. repeat split; vm_compute; reflexivity. Qed.

(** The API route does not fill missing keys either. *)
Example api_route_keeps_partial_object env :
  ApiRoute.parseGenerated env (jq " {'issuer':'Chase'} ")
  = inr (Record.record_of [(js "issuer", js "Chase")]).
Proof. reflexivity. Qed.

(** C1 (evaluation at the failing input): on the response [{not json}]
    the whole text is not JSON, the regular expression matches all of it,
    and the second [JSON.parse], which sits in the [catch] block, throws:
    the parser returns no record, and the component, run on a document
    for which the model gives this answer, ends in Failed with the text of
    the syntax error. *)
Theorem parse_throws_on_braced_garbage :
  (forall env, parseResponse env (js "{not json}")
               = inl (Error (syntaxErrorMessage env (js "{not json}"))))
  /\ let env := Scenario.saying (js "{not json}") in
     let s := run env start [Drop [Scenario.statementA]; Settle 0] in
     phase (ui s) = Failed
     /\ error (ui s) = js "Unexpected token in JSON"
     /\ result (ui s) = JNull.
Proof. split; [intros env|]; vm_compute; repeat split; reflexivity. Qed.

(** C6 (counterexample): prose that carries a brace of its own.  The
    embedded object is valid JSON for the six fields, yet the parser does
    not return its record: the span from the first opening brace to the
    last closing brace is not JSON, and the parser throws. *)
Lemma prose_with_brace_breaks_extraction :
  let object := jq "{'issuer':'Chase','cardLast4':'1234','statementPeriod':'Not Found','dueDate':'Not Found','totalBalance':'Not Found','minimumPayment':'Not Found'}" in
  let text := js "Fields {six of them}: " ++ object ++ js " Done." in
  JSON.parse text = None
  /\ JSON.parse object = Some Scenario.prose_example_record
  /\ parseResponse (Scenario.saying text) text <> inr Scenario.prose_example_record
  /\ parseResponse (Scenario.saying text) text = inl (Error (js "Unexpected token in JSON")).
Proof. vm_compute. repeat split; try reflexivity. discriminate. Qed.

(** C6 (amended): when the whole text is not JSON, and an object that
    is not empty stands between prose with no opening brace before it and
    no closing brace after it, the parser parses exactly the object, from
    its opening to its closing brace, and returns its value. *)
Theorem parse_extracts_embedded_object env pre body post v :
  let object := N_of_ascii "{" :: body ++ [N_of_ascii "}"] in
  JSON.parse (pre ++ object ++ post) = None ->
  has "{" pre = false ->
  has "}" post = false ->
  body <> [] ->
  JSON.parse object = Some v ->
  parseResponse env (pre ++ object ++ post) = inr v.
Proof.
  intros object Hwhole Hpre Hpost Hbody Hobj.
  rewrite parseResponse_cases, Hwhole.
  unfold object. rewrite exec_first_to_last by assumption.
  fold object. now rewrite Hobj.
Qed.

(** The example of the specification is an instance. *)
Lemma parse_extracts_embedded_object_witness :
  let body := jq "'issuer':'Chase','cardLast4':'1234','statementPeriod':'Not Found','dueDate':'Not Found','totalBalance':'Not Found','minimumPayment':'Not Found'" in
  let text := js "Here is the data: " ++ (N_of_ascii "{" :: body ++ [N_of_ascii "}"])
              ++ js " Let me know if needed." in
  text = Scenario.prose_example
  /\ parseResponse (Scenario.saying []) text = inr Scenario.prose_example_record.
Proof.
  intros body text. split; [reflexivity|].
  apply (parse_extracts_embedded_object (Scenario.saying [])
           (js "Here is the data: ") body (js " Let me know if needed.")).
  - reflexivity.
  - reflexivity.
  - reflexivity.
  - discriminate.
  - reflexivity.
Defined.

(** *** Texts of flat objects parse to those objects *)

Import Record JSONFacts.

Lemma skip_ws_head c r : is_ws c = false -> skip_ws (c :: r) = c :: r.
Proof. simpl; now intros ->. Qed.

Lemma string_chars_plain s rest :
  plain s = true -> string_chars (s ++ dquote :: rest) = Some (s, rest).
Proof.
  induction s as [|c s IH]; cbn [app string_chars plain forallb].
  - now rewrite N.eqb_refl.
  - intros H. apply andb_true_iff in H as [Hc Hs].
    unfold plain_char in Hc.
    apply andb_true_iff in Hc as [Hc H32]. apply andb_true_iff in Hc as [Hq Hb].
    apply negb_true_iff in Hq, Hb, H32.
    rewrite Hq, Hb, H32. fold (plain s) in Hs. now rewrite (IH Hs).
Qed.

Lemma parse_value_quoted f s rest :
  plain s = true ->
  parse_value (S f) (quoted s ++ rest) = Ok (JString s) rest.
Proof.
  intros Hs. rewrite parse_value_S. unfold quoted.
  cbn [app]. rewrite <- app_assoc. cbn [app].
  rewrite skip_ws_head by reflexivity.
  change (ch_is "{" dquote) with false. change (ch_is "[" dquote) with false.
  cbv iota. rewrite N.eqb_refl. now rewrite string_chars_plain.
Qed.

(** One member of the text read by [members]: what is left to do after
    it depends on the character that follows. *)
Lemma members_one f kv tail acc :
  plain_member kv ->
  (exists c r, tail = c :: r /\ is_ws c = false) ->
  members (S (S f)) (member_text kv ++ tail) acc =
  match tail with
  | [] => SyntaxErr
  | c3 :: r4 =>
    if ch_is "," c3 then members (S f) r4 (put acc kv)
    else if ch_is "}" c3 then Ok (JObject (put acc kv)) r4
    else SyntaxErr
  end.
Proof.
  intros [Hk Hv] (c & r & -> & Hc).
  rewrite members_S. unfold member_text at 1, quoted at 1.
  cbn [app]. repeat rewrite <- app_assoc. cbn [app].
  rewrite skip_ws_head by reflexivity.
  rewrite N.eqb_refl, string_chars_plain by assumption.
  change (js ":" ++ quoted (snd kv) ++ c :: r)
    with (N_of_ascii ":" :: quoted (snd kv) ++ c :: r).
  rewrite skip_ws_head by reflexivity.
  replace (ch_is ":" (N_of_ascii ":")) with true by reflexivity.
  rewrite parse_value_quoted by assumption.
  now rewrite skip_ws_head by assumption.
Qed.

Lemma members_text ms : forall f acc rest,
  ms <> [] -> Forall plain_member ms -> List.length ms < f ->
  members f (join (js ",") (map member_text ms) ++ N_of_ascii "}" :: rest) acc
  = Ok (JObject (fold_left put ms acc)) rest.
Proof.
  induction ms as [|m ms IH]; [congruence|].
  intros f acc rest _ Hall Hf.
  inversion Hall as [|? ? Hm Hms]; subst.
  destruct f as [|[|f]]; [simpl in Hf; lia| |].
  { destruct ms; simpl in Hf; lia. }
  destruct ms as [|m' ms].
  - cbn [map join fold_left].
    rewrite members_one; [reflexivity|assumption|].
    eexists _, _; split; reflexivity.
  - cbn [map join]. repeat rewrite <- app_assoc.
    rewrite members_one; [|assumption|
      eexists _, _; split; [cbn [js app map list_ascii_of_string]; reflexivity|reflexivity]].
    cbn [js app map list_ascii_of_string].
    replace (ch_is "," (N_of_ascii ",")) with true by reflexivity.
    cbv iota. cbn [fold_left].
    apply (IH (S f) (put acc m) rest); [discriminate|assumption|].
    simpl in Hf |- *; lia.
Qed.

Lemma join_length ms :
  List.length ms <= List.length (join (js ",") (map member_text ms)) + 0.
Proof.
  induction ms as [|m [|m' ms] IH]; [simpl; lia| |].
  - cbn [map join]. unfold member_text, quoted. simpl. lia.
  - change (List.length (m :: m' :: ms)) with (S (List.length (m' :: ms))).
    change (join (js ",") (map member_text (m :: m' :: ms)))
      with (member_text m ++ js "," ++ join (js ",") (map member_text (m' :: ms))).
    rewrite !length_app. simpl (List.length (js ",")). lia.
Qed.

Lemma has_key_absent k o : ~ In k (keys o) -> has_key k o = false.
Proof.
  induction o as [|[k' v'] o IH]; cbn [has_key existsb keys map fst In]; [reflexivity|].
  intros H. destruct (str_eqb k k') eqn:E.
  - apply str_eqb_eq in E. subst. tauto.
  - apply IH. tauto.
Qed.

(** A new key that is not integer-like goes last. *)
Lemma obj_set_fresh k v o :
  ~ In k (keys o) -> array_index k = None -> obj_set k v o = o ++ [(k, v)].
Proof.
  intros Hk Hi. unfold obj_set. now rewrite (has_key_absent _ _ Hk), Hi.
Qed.

Lemma fold_put_nodup ms : forall acc,
  NoDup (keys acc ++ map fst ms) ->
  Forall (fun kv => array_index (fst kv) = None) ms ->
  fold_left put ms acc = acc ++ map (fun kv => (fst kv, JString (snd kv))) ms.
Proof.
  induction ms as [|[k v] ms IH]; intros acc H Hidx; cbn [fold_left map].
  - now rewrite app_nil_r.
  - inversion Hidx as [|? ? Hi Hrest]; subst. cbn [fst] in Hi.
    unfold put at 2. cbn [fst snd].
    assert (Hk : ~ In k (keys acc)).
    { intros Hin. apply NoDup_remove_2 in H. apply H.
      apply in_or_app. now left. }
    rewrite (obj_set_fresh _ _ _ Hk Hi).
    rewrite IH.
    + now rewrite <- app_assoc.
    + unfold keys. rewrite map_app. cbn [map fst]. rewrite <- app_assoc. exact H.
    + exact Hrest.
Qed.

(** [JSON.parse] of the text of a flat object. *)
Lemma parse_object_text ms :
  Forall plain_member ms ->
  JSON.parse (object_text ms) = Some (JObject (fold_left put ms [])).
Proof.
  intros Hall. destruct ms as [|m ms]; [reflexivity|].
  unfold JSON.parse, fuel_for.
  assert (Hf : List.length (m :: ms) < 2 * List.length (object_text (m :: ms))).
  { pose proof (join_length (m :: ms)) as Hl.
    unfold object_text. rewrite !length_app.
    simpl (List.length (js "{")). lia. }
  replace (2 * List.length (object_text (m :: ms)) + 1)
    with (S (2 * List.length (object_text (m :: ms)))) by lia.
  remember (2 * List.length (object_text (m :: ms))) as f eqn:Ef. clear Ef.
  rewrite parse_value_S. unfold object_text.
  assert (Hd : exists r, join (js ",") (map member_text (m :: ms)) = dquote :: r).
  { destruct ms; cbn [map join]; unfold member_text, quoted; cbn [app]; eauto. }
  destruct Hd as [r Hr].
  remember (join (js ",") (map member_text (m :: ms))) as body eqn:Eb.
  change (js "{" ++ body ++ js "}") with (N_of_ascii "{" :: body ++ [N_of_ascii "}"]).
  rewrite skip_ws_head by reflexivity.
  replace (ch_is "{" (N_of_ascii "{")) with true by reflexivity. cbv iota.
  rewrite Hr. cbn [app]. rewrite skip_ws_head by reflexivity.
  change (ch_is "}" dquote) with false. cbv iota.
  change (dquote :: r ++ [N_of_ascii "}"]) with ((dquote :: r) ++ [N_of_ascii "}"]).
  rewrite <- Hr, Eb.
  rewrite members_text; [reflexivity|discriminate|assumption|assumption].
Qed.

(** The compact text of a flat object with distinct keys, none of them
    integer-like, parses to that object, members in the order written. *)
Lemma compact_object_parses ms :
  Forall plain_member ms ->
  NoDup (map fst ms) ->
  Forall (fun kv => array_index (fst kv) = None) ms ->
  JSON.parse (object_text ms) = Some (record_of ms).
Proof.
  intros Hp Hn Hi. rewrite parse_object_text by assumption.
  now rewrite fold_put_nodup.
Qed.

(** C2 (counterexample): a valid JSON object with one of the six keys.
    The record returned has that key only; [cardLast4] is undefined, not
    ["Not Found"]. *)
Lemma partial_object_is_not_filled :
  let text := jq "{'issuer':'Chase'}" in
  let env := Scenario.saying text in
  parseResponse env text = inr (Record.record_of [(js "issuer", js "Chase")])
  /\ (forall v, parseResponse env text = inr v ->
        Record.exactly_six_keys v = false
        /\ Record.field (js "cardLast4") v = None
        /\ Record.field (js "cardLast4") v <> Some (JString NOT_FOUND)).
Proof.
  split; [vm_compute; reflexivity|].
  intros v H. vm_compute in H. injection H as <-.
  vm_compute. repeat split. discriminate.
Qed.

Lemma field_record_of k ms :
  field k (record_of ms) = option_map JString (lookup k ms).
Proof.
  unfold record_of; cbn [field].
  induction ms as [|[k' v] ms IH]; cbn [map obj_get lookup fst snd]; [reflexivity|].
  destruct (str_eqb k k'); [reflexivity|exact IH].
Qed.

Lemma lookup_absent k ms : ~ In k (map fst ms) -> lookup k ms = None.
Proof.
  induction ms as [|[k' v] ms IH]; cbn [map lookup fst In]; [reflexivity|].
  intros H. destruct (str_eqb k k') eqn:E.
  - apply str_eqb_eq in E. subst. tauto.
  - apply IH. tauto.
Qed.

Lemma lookup_present k ms v : lookup k ms = Some v -> In k (map fst ms).
Proof.
  induction ms as [|[k' v'] ms IH]; cbn [map lookup fst In]; [discriminate|].
  destruct (str_eqb k k') eqn:E.
  - apply str_eqb_eq in E. now left.
  - intros H. right. now apply IH.
Qed.

(** A response that is valid JSON is returned as [JSON.parse] gives it,
    whatever its shape. *)
Lemma parseResponse_valid_json env text v :
  JSON.parse text = Some v -> parseResponse env text = inr v.
Proof. intros H. unfold parseResponse. now rewrite H. Qed.

(** C2 (amended): whenever the basis of the answer is a JSON object
    (the whole text parses to it, or the whole text is not JSON and the
    brace span parses to it), whatever the white space, escapes and order
    of its text, the parser returns that object as [JSON.parse] gives it.
    Reading a key of the record gives what the object has under that key;
    a key of the six that the object lacks is undefined in the record and
    is not filled with ["Not Found"]; the record has the six keys only if
    the object has them. *)
Theorem parse_returns_basis_unfilled env text o :
  (JSON.parse text = Some (JObject o)
   \/ (JSON.parse text = None
       /\ exists span, Regex.exec text = Some span
                       /\ JSON.parse span = Some (JObject o))) ->
  parseResponse env text = inr (JObject o)
  /\ (forall r, parseResponse env text = inr r ->
        (forall k, field k r = obj_get k o)
        /\ (forall k, In k FIELDS -> obj_get k o = None ->
              field k r = None /\ field k r <> Some (JString NOT_FOUND))
        /\ (exactly_six_keys r = true ->
              forall k, In k FIELDS -> exists v, obj_get k o = Some v /\ v <> JNull)).
Proof.
  intros Hbasis.
  assert (Hr : parseResponse env text = inr (JObject o)).
  { rewrite parseResponse_cases.
    destruct Hbasis as [-> | (-> & span & -> & ->)]; reflexivity. }
  split; [exact Hr|].
  intros r Hr'. rewrite Hr in Hr'. injection Hr' as <-.
  split; [reflexivity|]. split.
  - intros k _ Hk. cbn [field]. rewrite Hk. split; [reflexivity|discriminate].
  - intros Hsix k Hin. cbn [exactly_six_keys] in Hsix.
    apply andb_true_iff in Hsix as [Hsix _]. apply andb_true_iff in Hsix as [Hc _].
    unfold complete in Hc. rewrite forallb_forall in Hc.
    specialize (Hc k Hin). unfold present in Hc. cbn [field] in Hc.
    destruct (obj_get k o) as [v|]; [|discriminate].
    exists v. split; [reflexivity|]. intros ->. discriminate.
Qed.

(** An object written over two lines, with white space around every
    token and an escape in its value. *)
Lemma parse_returns_basis_unfilled_witness :
  let text := js " { " ++ [nl] ++ jq "  'issuer' : 'Chase" ++ [backslash] ++ jq "u0021' " ++ [nl] ++ js "} " in
  parseResponse (Scenario.saying []) text = inr (record_of [(js "issuer", js "Chase!")])
  /\ field (js "dueDate") (record_of [(js "issuer", js "Chase!")]) = None
  /\ field (js "dueDate") (record_of [(js "issuer", js "Chase!")])
     <> Some (JString NOT_FOUND).
Proof.
  intros text.
  destruct (parse_returns_basis_unfilled (Scenario.saying []) text
              [(js "issuer", JString (js "Chase!"))]) as (H1 & H2).
  - left. reflexivity.
  - split; [exact H1|].
    destruct (H2 _ H1) as (_ & H3 & _).
    apply (H3 (js "dueDate")); [|reflexivity].
    vm_compute. tauto.
Defined.

(** The same through the brace span, when prose surrounds the object. *)
Example parse_returns_span_unfilled :
  parseResponse (Scenario.saying []) (jq "Sure: { 'issuer': 'Chase' } - done")
  = inr (record_of [(js "issuer", js "Chase")]).
Proof. reflexivity. Qed.

(** Integer-like keys come first in the parsed object, as the language
    lists them; reading a key does not depend on the order. *)
Example integer_like_keys_first :
  JSON.parse (jq "{'b':1,'10':2,'issuer':'Chase','2':3}")
  = Some (JObject [ (js "2", JNumber (js "3")); (js "10", JNumber (js "2"));
                    (js "b", JNumber (js "1")); (js "issuer", JString (js "Chase")) ]).
Proof. reflexivity. Qed.

End ParserFacts.

(* ================================================================= *)
(** ** The prompt *)

Module PromptFacts.

Lemma prompt_frame text :
  prompt text = removelast PROMPT_HEAD ++ text ++ [nl].
Proof. reflexivity. Qed.

(** C8: the prompt is a function of the statement text alone: equal
    texts give prompts that are equal code unit by code unit.  The prompt
    is a fixed frame around the text, so its length is that of the text
    plus a constant, and two prompts agree only if the texts do. *)
Theorem prompt_deterministic t1 t2 :
  t1 = t2 ->
  prompt t1 = prompt t2
  /\ prompt t1 = removelast PROMPT_HEAD ++ t1 ++ [nl]
  /\ List.length (prompt t1) = List.length PROMPT_HEAD + List.length t1
  /\ (forall t3, prompt t1 = prompt t3 -> t1 = t3).
Proof.
  intros ->. repeat split.
  - rewrite prompt_frame, !length_app. simpl. lia.
  - intros t3 H. rewrite !prompt_frame in H.
    apply app_inv_head in H. now apply app_inv_tail in H.
Qed.

Lemma prompt_deterministic_witness :
  prompt (js "Total due 42.00") = prompt (js "Total due 42.00")
  /\ List.length (prompt (js "Total due 42.00")) = List.length PROMPT_HEAD + 15.
Proof.
  destruct (prompt_deterministic (js "Total due 42.00") (js "Total due 42.00") eq_refl)
    as (H1 & _ & H3 & _).
  split; [exact H1|exact H3].
Defined.

(** The prompt that reaches [fetch] does not depend on the environment:
    a [fetch] that rejects with the prompt it was given shows it. *)
Lemma callOpenAI_sends_prompt env key text :
  OPENAI_API_KEY env = Some key -> key <> [] ->
  fetch env = (fun _ p => inl (Error p)) ->
  callOpenAI env text = inl (Error (prompt text)).
Proof.
  intros Hk Hne Hf. unfold callOpenAI. rewrite Hk, Hf.
  destruct key; [congruence|reflexivity].
Qed.

End PromptFacts.

(* ================================================================= *)
(** ** The text extractor *)

Module ExtractorFacts.

(** The loop, started at page [k + 1] with [todo] pages to read that all
    decode, appends the line of each of them in order. *)
Lemma pages_loop_decoded pdf : forall todo k out texts,
  firstn todo (skipn k pdf) = map inr texts ->
  List.length texts = todo ->
  pages_loop pdf todo (S k) out = inr (out ++ List.concat (map page_line texts)).
Proof.
  induction todo as [|todo IH]; intros k out texts Hpages Hlen.
  - destruct texts; [|discriminate]. simpl. now rewrite app_nil_r.
  - destruct texts as [|t texts]; [discriminate|].
    cbn [pages_loop]. unfold getPage.
    replace (S k - 1) with k by lia.
    destruct (skipn k pdf) as [|p rest] eqn:Esk; [discriminate|].
    cbn [firstn map] in Hpages. injection Hpages as Hp Hrest.
    assert (Hnth : @nth_error (outcome TextContent) pdf k = Some p).
    { rewrite <- (firstn_skipn k pdf), Esk.
      assert (Hk : List.length (firstn k pdf) = k).
      { apply firstn_length_le.
        assert (List.length (skipn k pdf) > 0) by (rewrite Esk; simpl; lia).
        rewrite length_skipn in H. lia. }
      rewrite nth_error_app2 by lia. rewrite Hk, Nat.sub_diag. reflexivity. }
    rewrite Hnth, Hp. cbn [bind].
    assert (Hsk : skipn (S k) pdf = rest).
    { replace (S k) with (1 + k) by lia.
      rewrite <- skipn_skipn, Esk. reflexivity. }
    rewrite (IH (S k) _ texts); [|now rewrite Hsk|simpl in Hlen; lia].
    cbn [map List.concat]. unfold page_line at 2.
    now rewrite <- !app_assoc.
Qed.

Lemma concat_lines_join texts :
  texts <> [] ->
  List.concat (map page_line texts) = join [nl] (map pageText texts) ++ [nl].
Proof.
  induction texts as [|t [|t' texts] IH]; [congruence| |]; intros _.
  - cbn [map List.concat join]. now rewrite app_nil_r.
  - change (List.concat (map page_line (t :: t' :: texts)))
      with (page_line t ++ List.concat (map page_line (t' :: texts))).
    rewrite IH by discriminate.
    change (join [nl] (map pageText (t :: t' :: texts)))
      with (pageText t ++ [nl] ++ join [nl] (map pageText (t' :: texts))).
    unfold page_line. now rewrite <- !app_assoc.
Qed.

(** C9: for a document that opens and whose leading pages decode, the
    extractor returns the text of the first three pages (of all pages
    when there are fewer), in page order, each page followed by a line
    feed; so a line feed separates each page from the next. *)
Theorem extract_first_three_pages env f pw pdf texts :
  has_window env = true ->
  getDocument env (data f) (match pw with Some p => p | None => [] end) = inr pdf ->
  firstn 3 pdf = map inr texts ->
  extractPdfText env f pw = inr (List.concat (map page_line texts))
  /\ List.length texts = Nat.min (numPages pdf) 3
  /\ (numPages pdf <= 3 -> pdf = map inr texts)
  /\ (texts <> [] ->
      extractPdfText env f pw = inr (join [nl] (map pageText texts) ++ [nl])).
Proof.
  intros Hw Hdoc Hpages.
  assert (Hlen : List.length texts = Nat.min (numPages pdf) 3).
  { unfold numPages. rewrite <- (length_map (@inr thrown TextContent)), <- Hpages.
    rewrite length_firstn. lia. }
  assert (Hx : extractPdfText env f pw = inr (List.concat (map page_line texts))).
  { unfold extractPdfText. rewrite Hw. cbn [negb]. rewrite Hdoc. cbn [bind].
    unfold document_text.
    rewrite (pages_loop_decoded pdf (Nat.min (numPages pdf) 3) 0 [] texts).
    - reflexivity.
    - cbn [skipn]. rewrite <- Hpages.
      unfold numPages, PdfDocument, outcome in *.
      destruct (Nat.le_ge_cases (List.length pdf) 3) as [H|H].
      + rewrite Nat.min_l by assumption.
        rewrite firstn_all. symmetry. now apply firstn_all2.
      + now rewrite Nat.min_r by assumption.
    - exact Hlen. }
  repeat split.
  - exact Hx.
  - exact Hlen.
  - intros Hn. rewrite <- Hpages. symmetry. apply firstn_all2. exact Hn.
  - intros Hne. rewrite Hx. now rewrite concat_lines_join.
Qed.

Lemma extract_first_three_pages_witness :
  extractPdfText (Scenario.saying []) Scenario.statementA None
  = inr (js "Chase Sapphire" ++ [nl] ++ js "Due Jan 5" ++ [nl]).
Proof.
  destruct (extract_first_three_pages (Scenario.saying []) Scenario.statementA None
              [inr [js "Chase"; js "Sapphire"]; inr [js "Due"; js "Jan"; js "5"]]
              [[js "Chase"; js "Sapphire"]; [js "Due"; js "Jan"; js "5"]])
    as (H & _).
  - reflexivity.
  - reflexivity.
  - reflexivity.
  - exact H.
Defined.

(** A document of five pages: the fourth and the fifth are not read. *)
Example five_pages_three_read :
  document_text [inr [js "p1"]; inr [js "p2"]; inr [js "p3"];
                 inr [js "p4"]; inl (Error (js "broken"))]
  = inr (js "p1" ++ [nl] ++ js "p2" ++ [nl] ++ js "p3" ++ [nl]).
Proof. reflexivity. Qed.

End ExtractorFacts.

(* ================================================================= *)
(** ** The controller *)

Module ControllerFacts.

(** Either way the handler records the file and calls [parsePDF]. *)
Lemma submit_step env s e f :
  submits e f ->
  inflight (step env s e) = inflight s ++ [ {| call_file := f; call_password := None |} ]
  /\ parsing (ui (step env s e)) = true
  /\ needsPassword (ui (step env s e)) = false
  /\ result (ui (step env s e)) = JNull
  /\ error (ui (step env s e)) = []
  /\ file (ui (step env s e)) = Some f
  /\ pendingFile (ui (step env s e)) = pendingFile (ui s).
Proof.
  intros [->|[-> Ht]]; cbn [step handleFileChange handleDrop].
  - repeat split.
  - rewrite Ht. rewrite str_eqb_refl. repeat split.
Qed.

(** An error of any stage of the pipeline is the error of the pipeline. *)
Lemma pipeline_extract_error env f pw e :
  extractPdfText env f pw = inl e -> pipeline env f pw = inl e.
Proof. unfold pipeline. now intros ->. Qed.

Lemma pipeline_model_error env f pw text e :
  extractPdfText env f pw = inr text -> callOpenAI env text = inl e ->
  pipeline env f pw = inl e.
Proof. unfold pipeline. intros H1 H2. rewrite H1. cbn [bind]. now rewrite H2. Qed.

Lemma pipeline_parse_error env f pw text answer e :
  extractPdfText env f pw = inr text -> callOpenAI env text = inr (JString answer) ->
  parseResponse env answer = inl e ->
  pipeline env f pw = inl e.
Proof.
  unfold pipeline. intros H1 H2 H3.
  rewrite H1. cbn [bind]. rewrite H2. cbn [bind]. exact H3.
Qed.

Lemma message_or_default_nonempty e : message_or_default e <> [].
Proof. unfold message_or_default. destruct (message e) as [[|c m]|]; discriminate. Qed.

Lemma settle_only_call env f pw st :
  settle env 0 {| ui := st; inflight := [ {| call_file := f; call_password := pw |} ] |}
  = {| ui := parsePDF_settle f (pipeline env f pw) st; inflight := [] |}.
Proof. reflexivity. Qed.

(** C10: an error thrown by any stage of a call of [parsePDF] is
    classified by its message alone.  If the message contains
    [password] in any letter case, the component shows the password form
    and keeps the file of the call for a retry; it is not Failed.
    Otherwise it is Failed and shows the message of the error (a generic
    text when the error has no message or an empty one). *)
Theorem errors_classified_by_message env s f pw e :
  inflight s = [] ->
  pipeline env f pw = inl e ->
  let s' := settle env 0 (parsePDF f pw s) in
  (mentions_password e = true ->
     phase (ui s') = AwaitingCredential
     /\ needsPassword (ui s') = true
     /\ pendingFile (ui s') = Some f
     /\ error (ui s') = PASSWORD_MESSAGE)
  /\ (mentions_password e = false ->
     phase (ui s') = Failed
     /\ needsPassword (ui s') = false
     /\ pendingFile (ui s') = pendingFile (ui s)
     /\ error (ui s') = message_or_default e
     /\ (forall c m, message e = Some (c :: m) -> error (ui s') = c :: m)).
Proof.
  intros Hin Hp s'. subst s'. unfold parsePDF. rewrite Hin. cbn [app].
  rewrite settle_only_call, Hp. cbn [ui parsePDF_settle].
  split; intros Hm; rewrite Hm.
  - repeat split.
  - repeat split.
    + unfold phase. cbn.
      pose proof (message_or_default_nonempty e) as Hne.
      destruct (message_or_default e); [congruence|reflexivity].
    + intros c m He. cbn. unfold message_or_default. now rewrite He.
Qed.

(** An error of the model client that happens to mention a password opens
    the password form for a document that has none. *)
Lemma errors_classified_by_message_witness :
  let env := Scenario.browser
               (fun _ => inr (Scenario.api_error 401 (js "Invalid proxy Password"))) in
  let s' := settle env 0 (parsePDF Scenario.statementA None start) in
  pipeline env Scenario.statementA None = inl (Error (js "Invalid proxy Password"))
  /\ phase (ui s') = AwaitingCredential
  /\ pendingFile (ui s') = Some Scenario.statementA.
Proof.
  intros env s'.
  destruct (errors_classified_by_message env start Scenario.statementA None
              (Error (js "Invalid proxy Password")) eq_refl eq_refl) as [H _].
  destruct (H eq_refl) as (H1 & _ & H3 & _).
  split; [reflexivity|]. split; [exact H1|exact H3].
Defined.

(** C5 (counterexample): the locked document is submitted, then a wrong
    password is tried.  PDF.js reports two different errors, the page
    shows the same reason both times. *)
Lemma same_reason_for_both_credential_errors :
  let env := Scenario.saying [] in
  let first := run env start [Drop [Scenario.locked]; Settle 0] in
  let second := run env first [PasswordInput (js "guess"); PasswordSubmit; Settle 0] in
  pipeline env Scenario.locked None = inl (Error Scenario.NEED_PASSWORD)
  /\ pipeline env Scenario.locked (Some (js "guess")) = inl (Error Scenario.INCORRECT_PASSWORD)
  /\ phase (ui first) = AwaitingCredential
  /\ phase (ui second) = AwaitingCredential
  /\ Scenario.NEED_PASSWORD <> Scenario.INCORRECT_PASSWORD
  /\ error (ui first) = error (ui second).
Proof.
  vm_compute. repeat split. discriminate.
Qed.

(** C5 (amended): every entry to AwaitingCredential shows one and the
    same message, whatever the credential error was. *)
Theorem credential_errors_show_one_message f1 f2 e1 e2 st1 st2 :
  mentions_password e1 = true ->
  mentions_password e2 = true ->
  let a := parsePDF_settle f1 (inl e1) st1 in
  let b := parsePDF_settle f2 (inl e2) st2 in
  phase a = AwaitingCredential /\ phase b = AwaitingCredential
  /\ error a = PASSWORD_MESSAGE /\ error b = PASSWORD_MESSAGE
  /\ error a = error b.
Proof.
  intros H1 H2 a b. subst a b. cbn [parsePDF_settle]. rewrite H1, H2.
  repeat split.
Qed.

Lemma credential_errors_show_one_message_witness :
  error (parsePDF_settle Scenario.locked (inl (Error Scenario.NEED_PASSWORD)) initial)
  = error (parsePDF_settle Scenario.locked (inl (Error Scenario.INCORRECT_PASSWORD)) initial).
Proof.
  destruct (credential_errors_show_one_message Scenario.locked Scenario.locked
              (Error Scenario.NEED_PASSWORD) (Error Scenario.INCORRECT_PASSWORD)
              initial initial eq_refl eq_refl) as (_ & _ & _ & _ & H).
  exact H.
Defined.

(** C3: a submission whose document PDF.js refuses for want of a
    password goes from Extracting to AwaitingCredential and keeps the
    file; typing the right password and submitting the form calls
    [parsePDF] again on the kept file with that password, and when that
    call settles its record is the result.  No file is chosen again. *)
Theorem credential_error_then_retry env s submit f e pw parsed :
  inflight s = [] ->
  submits submit f ->
  has_window env = true ->
  getDocument env (data f) [] = inl e ->
  mentions_password e = true ->
  pipeline env f (Some pw) = inr parsed ->
  let s0 := step env s submit in
  let s1 := step env s0 (Settle 0) in
  let s2 := run env s1 [PasswordInput pw; PasswordSubmit] in
  let s3 := step env s2 (Settle 0) in
  phase (ui s0) = Extracting
  /\ (phase (ui s1) = AwaitingCredential
      /\ pendingFile (ui s1) = Some f /\ inflight s1 = [])
  /\ (phase (ui s2) = Extracting
      /\ inflight s2 = [ {| call_file := f; call_password := Some pw |} ])
  /\ (result (ui s3) = parsed /\ parsing (ui s3) = false
      /\ needsPassword (ui s3) = false /\ pendingFile (ui s3) = None
      /\ file (ui s3) = Some f /\ inflight s3 = []
      /\ (truthy parsed = true -> phase (ui s3) = Succeeded)).
Proof.
  intros Hin Hsub Hw Hdoc He Hok.
  assert (Hfirst : pipeline env f None = inl e).
  { apply pipeline_extract_error. unfold extractPdfText.
    rewrite Hw. cbn [negb]. now rewrite Hdoc. }
  assert (Hpw : exists c p, pw = c :: p).
  { destruct pw as [|c p]; [|eauto]. exfalso.
    assert (Hx : pipeline env f (Some []) = inl e).
    { apply pipeline_extract_error. unfold extractPdfText.
      rewrite Hw. cbn [negb]. now rewrite Hdoc. }
    pose proof (eq_trans (eq_sym Hx) Hok) as Hc. discriminate Hc. }
  destruct Hpw as (c & p & ->). intros s0 s1 s2 s3.
  destruct (submit_step env s submit f Hsub) as (Hi0 & Hp0 & Hn0 & Hr0 & He0 & Hf0 & Hpf0).
  fold s0 in Hi0, Hp0, Hn0, Hr0, He0, Hf0, Hpf0. rewrite Hin in Hi0. cbn [app] in Hi0.
  assert (Hs1 : s1 = {| ui := parsePDF_settle f (inl e) (ui s0); inflight := [] |}).
  { subst s1. cbn [step]. unfold settle. rewrite Hi0.
    cbn [nth_error remove_nth call_file call_password]. now rewrite Hfirst. }
  assert (Hu1 : ui s1 = ui s0 |> setNeedsPassword true |> setPendingFile (Some f)
                          |> setError PASSWORD_MESSAGE |> setParsing false).
  { rewrite Hs1. cbn [ui parsePDF_settle]. now rewrite He. }
  assert (Hs2 : s2 = parsePDF f (Some (c :: p)) (on_ui (setPassword (c :: p)) s1)).
  { subst s2. cbn [run fold_left step]. unfold handlePasswordSubmit.
    cbn [on_ui ui]. rewrite Hu1. reflexivity. }
  assert (Hi2 : inflight s2 = [ {| call_file := f; call_password := Some (c :: p) |} ]).
  { rewrite Hs2, Hs1. reflexivity. }
  assert (Hs3 : ui s3 = parsePDF_settle f (inr parsed) (ui s2) /\ inflight s3 = []).
  { subst s3. cbn [step]. unfold settle. rewrite Hi2.
    cbn [nth_error remove_nth call_file call_password ui inflight].
    split; [|reflexivity].
    exact (f_equal (fun r => parsePDF_settle f r (ui s2)) Hok). }
  destruct Hs3 as [Hu3 Hi3].
  clearbody s0 s1 s2 s3.
  split; [unfold phase; now rewrite Hp0|].
  split; [rewrite Hu1; repeat split; rewrite Hs1; reflexivity|].
  split; [split; [rewrite Hs2; reflexivity|exact Hi2]|].
  rewrite Hu3. cbn [parsePDF_settle].
  repeat split; try exact Hi3.
  - rewrite Hs2. cbn. rewrite Hu1. cbn. exact Hf0.
  - intros Ht. unfold phase. cbn. now rewrite Ht.
Qed.

Lemma credential_error_then_retry_witness :
  let env := Scenario.browser Scenario.by_issuer in
  let s1 := run env start [FileChange [Scenario.locked]; Settle 0] in
  let s3 := run env s1 [PasswordInput Scenario.secret; PasswordSubmit; Settle 0] in
  phase (ui s1) = AwaitingCredential
  /\ pendingFile (ui s1) = Some Scenario.locked
  /\ result (ui s3) = Record.record_of [(js "issuer", js "Citi")]
  /\ phase (ui s3) = Succeeded.
Proof.
  intros env s1 s3.
  destruct (credential_error_then_retry env start (FileChange [Scenario.locked])
              Scenario.locked (Error Scenario.NEED_PASSWORD) Scenario.secret
              (Record.record_of [(js "issuer", js "Citi")]))
    as (_ & (H1 & H2 & _) & _ & (H3 & _ & _ & _ & _ & _ & H4)).
  - reflexivity.
  - left; reflexivity.
  - reflexivity.
  - reflexivity.
  - reflexivity.
  - reflexivity.
  - split; [exact H1|]. split; [exact H2|]. split; [exact H3|].
    apply H4. reflexivity.
Defined.

(** *** Two calls in flight *)

(** C4 (evaluation at the failing input): a document is dropped, and a
    second one is dropped while the first call is in flight.  The page
    guards its other two entries against this: with the spinner on, the
    file input and the submit button of the password form are disabled;
    the drop zone is not.  The answer for the second document arrives
    first and the answer for the first arrives late: the late answer is
    published, and the page names the second document while it shows the
    record of the first. *)
Theorem late_response_overwrites :
  let env := Scenario.browser Scenario.by_issuer in
  let events := [Drop [Scenario.statementA]; Drop [Scenario.statementB];
                 Settle 1; Settle 0] in
  let busy := run env start [Drop [Scenario.statementA]] in
  let s := run env start events in
  (enabled busy (FileChange [Scenario.statementB]) = false
   /\ enabled busy PasswordSubmit = false
   /\ enabled busy (Drop [Scenario.statementB]) = true)
  /\ feasible env start events = true
  /\ pipeline env Scenario.statementB None = inr (Record.record_of [(js "issuer", js "Amex")])
  /\ file (ui s) = Some Scenario.statementB
  /\ result (ui s) = Record.record_of [(js "issuer", js "Chase")]
  /\ result (ui s) <> Record.record_of [(js "issuer", js "Amex")]
  /\ inflight s = [].
Proof. vm_compute. repeat split. discriminate. Qed.

End ControllerFacts.

(* ================================================================= *)
(** * Further properties of the code *)

(** ** Substrings *)

Module StringFacts.

Lemma strip_prefix_some p : forall s r, strip_prefix p s = Some r -> s = p ++ r.
Proof.
  induction p as [|a p IH]; intros [|b s] r; cbn [strip_prefix app]; try discriminate.
  - now intros [= <-].
  - now intros [= <-].
  - destruct (N.eqb a b) eqn:E; [|discriminate].
    apply N.eqb_eq in E. subst b. intros H. now rewrite (IH _ _ H).
Qed.

Lemma includes_unfold s p :
  includes s p = match strip_prefix p s with
                 | Some _ => true
                 | None => match s with
                           | [] => false
                           | _ :: s' => includes s' p
                           end
                 end.
Proof. destruct s; reflexivity. Qed.

Lemma includes_app a p b : includes (a ++ p ++ b) p = true.
Proof.
  induction a as [|c a IH]; cbn [app].
  - rewrite includes_unfold. now rewrite strip_prefix_app.
  - rewrite includes_unfold. destruct (strip_prefix p (c :: a ++ p ++ b)); [reflexivity|].
    exact IH.
Qed.

Lemma includes_split s p :
  includes s p = true -> exists a b, s = a ++ p ++ b.
Proof.
  induction s as [|c s IH]; rewrite includes_unfold.
  - destruct (strip_prefix p []) as [r|] eqn:E; [|discriminate].
    intros _. apply strip_prefix_some in E. now exists [], r.
  - destruct (strip_prefix p (c :: s)) as [r|] eqn:E.
    + intros _. apply strip_prefix_some in E. now exists [], r.
    + intros H. destruct (IH H) as (a & b & ->). now exists (c :: a), b.
Qed.

Lemma includes_app_l s t p : includes s p = true -> includes (s ++ t) p = true.
Proof.
  intros H. destruct (includes_split _ _ H) as (a & b & ->).
  rewrite <- !app_assoc. apply includes_app.
Qed.

End StringFacts.

(* ================================================================= *)
(** ** The response parser, continued *)

Module ParserMore.
Import RegexFacts StringFacts.

(** X1: the regular expression [/\{[\s\S]+\}/] finds a match exactly in
    a text that has an opening brace, something after it, and then a
    closing brace; the match is the span from the first opening brace of
    the text to its last closing brace. *)
Theorem exec_characterization s m :
  Regex.exec s = Some m <->
  exists pre body post,
    s = pre ++ m ++ post
    /\ m = N_of_ascii "{" :: body ++ [N_of_ascii "}"]
    /\ body <> []
    /\ has "{" pre = false /\ has "}" post = false.
Proof.
  split.
  - apply exec_some.
  - intros (pre & body & post & -> & -> & Hb & Hpre & Hpost).
    now apply exec_first_to_last.
Qed.

(** X2: the inner parser of [parsePDF] throws in one situation only: the
    answer is not JSON as a whole, it has a brace span (first opening to
    last closing brace, something in between), and that span is not JSON.
    The error is the syntax error of the span. *)
Theorem parse_throws_exactly env text e :
  parseResponse env text = inl e <->
  JSON.parse text = None
  /\ exists pre body post,
       let span := N_of_ascii "{" :: body ++ [N_of_ascii "}"] in
       text = pre ++ span ++ post
       /\ body <> []
       /\ has "{" pre = false /\ has "}" post = false
       /\ JSON.parse span = None
       /\ e = Error (syntaxErrorMessage env span).
Proof.
  rewrite ParserFacts.parseResponse_cases. split.
  - destruct (JSON.parse text) as [v|]; [discriminate|].
    destruct (Regex.exec text) as [m|] eqn:Ex; [|discriminate].
    destruct (exec_some _ _ Ex) as (pre & body & post & Ht & Hm & Hb & Hpre & Hpost).
    destruct (JSON.parse m) eqn:Em; [discriminate|]. intros [= <-].
    split; [reflexivity|]. exists pre, body, post. cbv zeta. rewrite <- Hm.
    now repeat split.
  - intros (Hn & pre & body & post & Ht & Hb & Hpre & Hpost & Hj & He).
    cbv zeta in Ht, Hj, He. rewrite Hn.
    assert (Ex : Regex.exec text = Some (N_of_ascii "{" :: body ++ [N_of_ascii "}"])).
    { rewrite Ht. now apply exec_first_to_last. }
    rewrite Ex, Hj, He. reflexivity.
Qed.

End ParserMore.

(* ================================================================= *)
(** ** The text extractor, continued *)

Module ExtractorMore.

(** The loop started at page [k + 1] reads the next [todo] pages. *)
Lemma pages_loop_read pdf : forall todo k out,
  todo + k <= List.length pdf ->
  pages_loop pdf todo (S k) out = read_pages (firstn todo (skipn k pdf)) out.
Proof.
  induction todo as [|todo IH]; intros k out Hlen; [reflexivity|].
  cbn [pages_loop]. unfold getPage. replace (S k - 1) with k by lia.
  destruct (skipn k pdf) as [|p rest] eqn:Esk.
  { exfalso. assert (H : List.length (skipn k pdf) = 0) by now rewrite Esk.
    rewrite length_skipn in H. lia. }
  assert (Hnth : @nth_error (outcome TextContent) pdf k = Some p).
  { rewrite <- (firstn_skipn k pdf), Esk.
    assert (Hk : List.length (firstn k pdf) = k) by (apply firstn_length_le; lia).
    rewrite nth_error_app2 by lia. now rewrite Hk, Nat.sub_diag. }
  assert (Hsk : skipn (S k) pdf = rest).
  { replace (S k) with (1 + k) by lia. now rewrite <- skipn_skipn, Esk. }
  rewrite Hnth. cbn [firstn read_pages].
  destruct p as [e|items]; cbn [bind]; [reflexivity|].
  rewrite IH by lia. now rewrite Hsk.
Qed.

Lemma document_text_read pdf : document_text pdf = read_pages (firstn 3 pdf) [].
Proof.
  unfold document_text, numPages.
  rewrite pages_loop_read by lia. cbn [skipn].
  destruct (Nat.le_ge_cases (List.length pdf) 3) as [H|H].
  - rewrite Nat.min_l by assumption. rewrite firstn_all.
    now rewrite firstn_all2 by assumption.
  - now rewrite Nat.min_r by assumption.
Qed.

Lemma read_pages_decoded texts : forall out,
  read_pages (map inr texts) out = inr (out ++ List.concat (map page_line texts)).
Proof.
  induction texts as [|t texts IH]; intros out; cbn [map read_pages bind List.concat].
  - now rewrite app_nil_r.
  - rewrite IH. unfold page_line at 2. now rewrite <- !app_assoc.
Qed.

Lemma read_pages_failing texts e rest : forall out,
  read_pages (map inr texts ++ inl e :: rest) out = inl e.
Proof.
  induction texts as [|t texts IH]; intros out; cbn [map app read_pages bind].
  - reflexivity.
  - apply IH.
Qed.

(** X3: whatever follows the third page is never read: two documents
    that agree on their first three pages give the same text or the same
    error, also when a later page of one of them would fail to decode. *)
Theorem later_pages_never_read pdf1 pdf2 :
  firstn 3 pdf1 = firstn 3 pdf2 ->
  document_text pdf1 = document_text pdf2
  /\ document_text pdf1 = document_text (firstn 3 pdf1).
Proof.
  intros H. split.
  - rewrite !document_text_read. now rewrite H.
  - rewrite !document_text_read. rewrite firstn_firstn. reflexivity.
Qed.

Lemma later_pages_never_read_witness :
  document_text [inr [js "p1"]; inr [js "p2"]; inr [js "p3"];
                 inr [js "p4"]; inl (Error (js "broken"))]
  = document_text [inr [js "p1"]; inr [js "p2"]; inr [js "p3"]].
Proof.
  destruct (later_pages_never_read
              [inr [js "p1"]; inr [js "p2"]; inr [js "p3"];
               inr [js "p4"]; inl (Error (js "broken"))]
              [inr [js "p1"]; inr [js "p2"]; inr [js "p3"]]) as [H _].
  - reflexivity.
  - exact H.
Defined.

(** X4: if, among the first three pages, the pages before some page
    decode and that page does not, the extraction fails with the error of
    that page; nothing of the pages read so far is returned. *)
Theorem first_failing_page_fails env f pw pdf texts e rest :
  has_window env = true ->
  getDocument env (data f) (match pw with Some p => p | None => [] end) = inr pdf ->
  firstn 3 pdf = map inr texts ++ inl e :: rest ->
  extractPdfText env f pw = inl e.
Proof.
  intros Hw Hdoc Hpages. unfold extractPdfText.
  rewrite Hw. cbn [negb]. rewrite Hdoc. cbn [bind].
  rewrite document_text_read, Hpages. apply read_pages_failing.
Qed.

Lemma first_failing_page_fails_witness :
  let env := Scenario.browser Scenario.by_issuer in
  let broken := fun (_ : list Byte.byte) (_ : str) =>
    inr [inr [js "page one"]; inl (Error (js "Bad XRef entry")); inr [js "page three"]] in
  let env' := {| has_window := true; OPENAI_API_KEY := OPENAI_API_KEY env;
                 getDocument := broken; fetch := fetch env;
                 syntaxErrorMessage := syntaxErrorMessage env;
                 bodyErrorMessage := bodyErrorMessage env;
                 nullAccessMessage := nullAccessMessage env;
                 numberToString := numberToString env;
                 toPrimitiveMessage := toPrimitiveMessage env;
                 notAFunctionMessage := notAFunctionMessage env;
                 destructureMessage := destructureMessage env |} in
  extractPdfText env' Scenario.statementA None = inl (Error (js "Bad XRef entry")).
Proof.
  intros env broken env'.
  apply (first_failing_page_fails env' Scenario.statementA None
           [inr [js "page one"]; inl (Error (js "Bad XRef entry")); inr [js "page three"]]
           [[js "page one"]] (Error (js "Bad XRef entry")) [inr [js "page three"]]).
  - reflexivity.
  - reflexivity.
  - reflexivity.
Defined.

Lemma concat_lines_nil texts : List.concat (map page_line texts) = [] -> texts = [].
Proof.
  destruct texts as [|t texts]; [reflexivity|].
  cbn [map List.concat]. unfold page_line at 1. intros H.
  apply app_eq_nil in H as [H _]. apply app_eq_nil in H as [_ H]. discriminate.
Qed.

(** X5: for a document whose leading pages decode, the extracted text is
    empty exactly when the document has no page; with at least one page
    it ends with a line feed, even if no page has any text item. *)
Theorem empty_text_iff_no_pages pdf texts out :
  firstn 3 pdf = map inr texts ->
  document_text pdf = inr out ->
  (out = [] <-> pdf = [])
  /\ (pdf <> [] -> exists body, out = body ++ [nl]).
Proof.
  intros Hpages Hout. rewrite document_text_read in Hout.
  unfold PdfDocument, outcome in *. rewrite Hpages in Hout.
  pose proof (read_pages_decoded texts []) as Hr. unfold outcome in Hr.
  rewrite Hr in Hout. cbn [app] in Hout. injection Hout as <-.
  assert (Hnil : texts = [] <-> pdf = []).
  { split; intros ->.
    - destruct pdf; [reflexivity|discriminate].
    - destruct texts; [reflexivity|discriminate]. }
  split.
  - split.
    + intros H. apply Hnil. now apply concat_lines_nil.
    + intros H. apply Hnil in H. now subst texts.
  - intros Hne.
    destruct texts as [|t texts] using rev_ind; [exfalso; apply Hne; now apply Hnil|].
    rewrite map_app, concat_app. cbn [map List.concat]. rewrite app_nil_r.
    unfold page_line at 2. rewrite app_assoc. eauto.
Qed.

(** A document of one page without any text item: the text is not
    empty, it is the line feed of that page. *)
Lemma empty_text_iff_no_pages_witness :
  document_text [inr []] = inr [nl]
  /\ ([nl] = [] <-> [@inr thrown TextContent []] = [])
  /\ exists body, [nl] = body ++ [nl].
Proof.
  destruct (empty_text_iff_no_pages [inr []] [[]] [nl] eq_refl eq_refl) as [H1 H2].
  split; [reflexivity|]. split; [exact H1|].
  apply H2. discriminate.
Defined.

End ExtractorMore.

(* ================================================================= *)
(** ** The model client and the prompt, continued *)

Module ClientMore.
Import StringFacts.

Lemma toLowerCase_app a b : toLowerCase (a ++ b) = toLowerCase a ++ toLowerCase b.
Proof. apply map_app. Qed.

(** X6: an error counts as a credential error exactly when its message
    has, at any position, a run of characters that lower-cases to
    [password]: the test ignores letter case and everything around the
    word. *)
Theorem password_test_any_case_any_place err :
  mentions_password err = true <->
  exists before word after,
    message err = Some (before ++ word ++ after)
    /\ toLowerCase word = js "password".
Proof.
  unfold mentions_password. split.
  - destruct (message err) as [m|]; [|discriminate]. intros H.
    apply includes_split in H as (a & b & H).
    apply map_eq_app in H as (before & r & -> & Ha & H).
    apply map_eq_app in H as (word & after & -> & Hw & Hb).
    exists before, word, after. split; [reflexivity|exact Hw].
  - intros (before & word & after & -> & Hw).
    rewrite !toLowerCase_app, Hw. apply includes_app.
Qed.

(** X7: without an API key (undefined or empty) the client fails with
    the configuration message before any request: the outcome is the same
    whatever [fetch] would do.  A submission of a document that decodes
    then ends in Failed with that message, not in the password form. *)
Theorem missing_key_fails_before_fetch env any_fetch s e f text :
  (OPENAI_API_KEY env = None \/ OPENAI_API_KEY env = Some []) ->
  inflight s = [] ->
  submits e f ->
  extractPdfText env f None = inr text ->
  callOpenAI (with_fetch env any_fetch) text = inl (Error CONFIG_MESSAGE)
  /\ let s' := run env s [e; Settle 0] in
     phase (ui s') = Failed
     /\ error (ui s') = CONFIG_MESSAGE
     /\ needsPassword (ui s') = false
     /\ result (ui s') = JNull.
Proof.
  intros Hkey Hin Hsub Hx.
  assert (Hc : forall env', OPENAI_API_KEY env' = OPENAI_API_KEY env ->
                            callOpenAI env' text = inl (Error CONFIG_MESSAGE)).
  { intros env' He. unfold callOpenAI. rewrite He.
    destruct Hkey as [-> | ->]; reflexivity. }
  split; [now apply Hc|].
  assert (Hp : pipeline env f None = inl (Error CONFIG_MESSAGE)).
  { unfold pipeline. rewrite Hx. cbn [bind]. now rewrite (Hc env eq_refl). }
  cbn [run fold_left].
  destruct (ControllerFacts.submit_step env s e f Hsub)
    as (Hi & Hpa & Hn & Hr & He & Hf & Hpf).
  rewrite Hin in Hi. cbn [app] in Hi.
  cbn [step]. unfold settle. rewrite Hi.
  cbn [nth_error remove_nth call_file call_password ui]. rewrite Hp.
  cbn [parsePDF_settle].
  replace (mentions_password (Error CONFIG_MESSAGE)) with false by (vm_compute; reflexivity).
  unfold phase. cbn. rewrite Hn, Hr. repeat split.
Qed.

Lemma missing_key_fails_before_fetch_witness :
  let env := with_fetch
               {| has_window := true; OPENAI_API_KEY := None;
                  getDocument := Scenario.open_document;
                  fetch := fun _ _ => inl (Error []);
                  syntaxErrorMessage := fun _ => [];
                  bodyErrorMessage := []; nullAccessMessage := [];
                  numberToString := fun n => n; toPrimitiveMessage := [];
                  notAFunctionMessage := []; destructureMessage := [] |}
               (fun _ _ => inr (Scenario.completion (jq "{'issuer':'Chase'}"))) in
  phase (ui (run env start [Drop [Scenario.statementA]; Settle 0])) = Failed.
Proof.
  intros env.
  destruct (missing_key_fails_before_fetch env (fetch env) start
              (Drop [Scenario.statementA]) Scenario.statementA
              (js "Chase Sapphire" ++ [nl] ++ js "Due Jan 5" ++ [nl]))
    as (_ & H & _).
  - left; reflexivity.
  - reflexivity.
  - right; split; reflexivity.
  - reflexivity.
  - exact H.
Defined.

(** X8: for a response that is not [ok] the client never returns: it
    throws.  The message of the error is the [error.message] of the body
    when that is a string that is not empty; it is [OpenAI API error: ]
    followed by the status in decimal when the body has no such field or
    holds a falsy value there (body not JSON, field missing, [null],
    [false], zero, empty string); and for any other truthy value it is
    that value converted to a string. *)
Theorem http_error_message env c key text response :
  OPENAI_API_KEY env = Some (c :: key) ->
  fetch env (c :: key) (prompt text) = inr response ->
  ok response = false ->
  (forall r, callOpenAI env text <> inr r)
  /\ (forall x s, error_message (json response) = Some (JString (x :: s)) ->
        callOpenAI env text = inl (Error (x :: s)))
  /\ ((error_message (json response) = None
       \/ exists v, error_message (json response) = Some v /\ truthy v = false) ->
      callOpenAI env text
      = inl (Error (js "OpenAI API error: " ++ decimal (status response))))
  /\ (forall v, error_message (json response) = Some v -> truthy v = true ->
        callOpenAI env text = (let* m := ToString env v in inl (Error m))).
Proof.
  intros Hk Hf Hok.
  assert (Hc : callOpenAI env text
               = (let* m := ToString env
                              (or_else (error_message (json response))
                                 (JString (js "OpenAI API error: "
                                           ++ decimal (status response)))) in
                  inl (Error m))).
  { unfold callOpenAI. rewrite Hk, Hf. cbn [bind]. rewrite Hok. reflexivity. }
  split; [|split; [|split]].
  - intros r. rewrite Hc.
    destruct (ToString env _); cbn [bind]; discriminate.
  - intros x s He. rewrite Hc, He. reflexivity.
  - intros [He | (v & He & Hv)]; rewrite Hc, He; cbn [or_else]; [|rewrite Hv]; reflexivity.
  - intros v He Hv. rewrite Hc, He. cbn [or_else]. now rewrite Hv.
Qed.

Lemma http_error_message_witness :
  let numeric := {| ok := false; status := 500;
                    json := Some (JObject [(js "error",
                              JObject [(js "message", JNumber (js "123"))])]) |} in
  callOpenAI (Scenario.browser (fun _ => inr (Scenario.api_error 429 (js "Rate limit reached"))))
    (js "some text") = inl (Error (js "Rate limit reached"))
  /\ callOpenAI (Scenario.browser (fun _ => inr numeric)) (js "some text")
     = inl (Error (js "123"))
  /\ callOpenAI (Scenario.browser (fun _ => inr (Scenario.api_error 503 []))) (js "some text")
     = inl (Error (js "OpenAI API error: 503")).
Proof.
  intros numeric. split; [|split].
  - destruct (http_error_message
                (Scenario.browser (fun _ => inr (Scenario.api_error 429 (js "Rate limit reached"))))
                (N_of_ascii "s") (js "k-test") (js "some text")
                (Scenario.api_error 429 (js "Rate limit reached")) eq_refl eq_refl eq_refl)
      as (_ & H & _).
    apply (H (N_of_ascii "R") (js "ate limit reached")). reflexivity.
  - destruct (http_error_message (Scenario.browser (fun _ => inr numeric))
                (N_of_ascii "s") (js "k-test") (js "some text") numeric
                eq_refl eq_refl eq_refl) as (_ & _ & _ & H).
    apply (H (JNumber (js "123"))); reflexivity.
  - destruct (http_error_message
                (Scenario.browser (fun _ => inr (Scenario.api_error 503 [])))
                (N_of_ascii "s") (js "k-test") (js "some text")
                (Scenario.api_error 503 []) eq_refl eq_refl eq_refl)
      as (_ & _ & H & _).
    apply H. right. exists (JString []). split; reflexivity.
Defined.

(** X9: a completion whose content is missing or falsy (no [choices],
    an empty list of choices, a [content] that is [null], [false], zero or
    the empty string) is read as the empty string, and the empty string is
    parsed to the default record: the call succeeds with all six fields
    ["Not Found"]. *)
Theorem empty_completion_gives_default env f pw text c key response data :
  extractPdfText env f pw = inr text ->
  OPENAI_API_KEY env = Some (c :: key) ->
  fetch env (c :: key) (prompt text) = inr response ->
  ok response = true ->
  json response = Some data ->
  data <> JNull ->
  (completion_content data = None
   \/ exists v, completion_content data = Some v /\ truthy v = false) ->
  callOpenAI env text = inr (JString [])
  /\ pipeline env f pw = inr default_record.
Proof.
  intros Hx Hk Hf Hok Hj Hd Hc.
  assert (Hcall : callOpenAI env text = inr (JString [])).
  { unfold callOpenAI. rewrite Hk, Hf. cbn [bind]. rewrite Hok, Hj. cbn [negb].
    fold (completion_content data).
    assert (Ht : or_else (completion_content data) (JString []) = JString []).
    { destruct Hc as [-> | (v & -> & Hv)]; cbn [or_else]; [|rewrite Hv]; reflexivity. }
    rewrite Ht. destruct data; try reflexivity. congruence. }
  split; [exact Hcall|].
  unfold pipeline. rewrite Hx. cbn [bind]. rewrite Hcall. reflexivity.
Qed.

Lemma empty_completion_gives_default_witness :
  let null_content :=
    {| ok := true; status := 200;
       json := Some (JObject [(js "choices",
                 JArray [JObject [(js "message",
                   JObject [(js "content", JNull)])]])]) |} in
  let env := Scenario.browser (fun _ => inr null_content) in
  pipeline env Scenario.statementA None = inr default_record.
Proof.
  intros null_content env.
  destruct (empty_completion_gives_default env Scenario.statementA None
              (js "Chase Sapphire" ++ [nl] ++ js "Due Jan 5" ++ [nl])
              (N_of_ascii "s") (js "k-test") null_content
              (JObject [(js "choices",
                 JArray [JObject [(js "message",
                   JObject [(js "content", JNull)])]])])) as [_ H].
  - reflexivity.
  - reflexivity.
  - reflexivity.
  - reflexivity.
  - reflexivity.
  - discriminate.
  - right. exists JNull. split; reflexivity.
  - exact H.
Defined.

(** X20: a completion whose content is an object, not a string, makes
    the call fail: [JSON.parse] of the object converted to a string
    throws, and the [catch] block calls [match] on the object, which has
    no such method.  The error that reaches the outer [catch] is that
    [TypeError]. *)
Theorem object_content_is_a_type_error env f pw text c key response data o :
  extractPdfText env f pw = inr text ->
  OPENAI_API_KEY env = Some (c :: key) ->
  fetch env (c :: key) (prompt text) = inr response ->
  ok response = true ->
  json response = Some data ->
  completion_content data = Some (JObject o) ->
  callOpenAI env text = inr (JObject o)
  /\ pipeline env f pw = inl (Error (notAFunctionMessage env)).
Proof.
  intros Hx Hk Hf Hok Hj Hc.
  assert (Hcall : callOpenAI env text = inr (JObject o)).
  { unfold callOpenAI. rewrite Hk, Hf. cbn [bind]. rewrite Hok, Hj. cbn [negb].
    fold (completion_content data). rewrite Hc. cbn [or_else truthy].
    destruct data; try reflexivity. discriminate Hc. }
  split; [exact Hcall|].
  unfold pipeline. rewrite Hx. cbn [bind]. rewrite Hcall. cbn [bind parseAnswer ToString].
  destruct (obj_get (js "toString") o); reflexivity.
Qed.

Lemma object_content_is_a_type_error_witness :
  let structured :=
    {| ok := true; status := 200;
       json := Some (JObject [(js "choices",
                 JArray [JObject [(js "message",
                   JObject [(js "content",
                     JObject [(js "issuer", JString (js "Chase"))])])]])]) |} in
  let env := Scenario.browser (fun _ => inr structured) in
  let s := run env start [Drop [Scenario.statementA]; Settle 0] in
  pipeline env Scenario.statementA None
  = inl (Error (js "openAIResponse.match is not a function"))
  /\ phase (ui s) = Failed
  /\ error (ui s) = js "openAIResponse.match is not a function".
Proof.
  intros structured env s.
  destruct (object_content_is_a_type_error env Scenario.statementA None
              (js "Chase Sapphire" ++ [nl] ++ js "Due Jan 5" ++ [nl])
              (N_of_ascii "s") (js "k-test") structured
              (JObject [(js "choices",
                 JArray [JObject [(js "message",
                   JObject [(js "content",
                     JObject [(js "issuer", JString (js "Chase"))])])]])])
              [(js "issuer", JString (js "Chase"))]) as [_ H].
  - reflexivity.
  - reflexivity.
  - reflexivity.
  - reflexivity.
  - reflexivity.
  - reflexivity.
  - split; [exact H|]. split; reflexivity.
Defined.

(** X10: both prompts carry the statement text unchanged, the API
    route's between its [<<<] and [>>>] lines, and both name each of the
    six fields before the text. *)
Theorem prompts_embed_text_and_fields text :
  includes (prompt text) ([nl] ++ text ++ [nl]) = true
  /\ includes (ApiRoute.prompt text)
       (js "<<<" ++ [nl] ++ text ++ [nl] ++ js ">>>") = true
  /\ (forall k, In k Record.FIELDS ->
        includes (prompt text) k = true
        /\ includes (ApiRoute.prompt text) (dquote :: k ++ [dquote]) = true).
Proof.
  assert (Hroute : ApiRoute.prompt text
                   = ROUTE_PROMPT_HEAD
                     ++ (js "<<<" ++ [nl] ++ text ++ [nl] ++ js ">>>")
                     ++ ([nl] ++ js "[/INST]")).
  { unfold ApiRoute.prompt. cbn [app js map list_ascii_of_string].
    now rewrite <- !app_assoc. }
  split; [|split].
  - replace (prompt text)
      with (removelast (removelast PROMPT_HEAD) ++ ([nl] ++ text ++ [nl]) ++ [])
      by (now rewrite app_nil_r).
    apply includes_app.
  - rewrite Hroute. apply includes_app.
  - intros k Hk.
    assert (H1 : includes (removelast PROMPT_HEAD) k = true)
      by (cbn [Record.FIELDS In] in Hk;
          repeat (destruct Hk as [<-|Hk]; [vm_compute; reflexivity|]); destruct Hk).
    assert (H2 : includes ROUTE_PROMPT_HEAD (dquote :: k ++ [dquote]) = true)
      by (cbn [Record.FIELDS In] in Hk;
          repeat (destruct Hk as [<-|Hk]; [vm_compute; reflexivity|]); destruct Hk).
    split.
    + change (prompt text) with (removelast PROMPT_HEAD ++ (text ++ [nl])).
      now apply includes_app_l.
    + rewrite Hroute. now apply includes_app_l.
Qed.

End ClientMore.

(* ================================================================= *)
(** ** The controller, continued *)

Module ControllerMore.
Import ControllerFacts.

(** A submission with nothing else in flight, and its call settling. *)
Lemma round_ui env s e f :
  inflight s = [] -> submits e f ->
  run env s [e; Settle 0]
  = {| ui := parsePDF_settle f (pipeline env f None) (ui (step env s e));
       inflight := [] |}.
Proof.
  intros Hin Hsub. cbn [run fold_left step]. unfold settle.
  destruct (submit_step env s e f Hsub) as (Hi & _).
  rewrite Hin in Hi. cbn [app] in Hi. rewrite Hi. reflexivity.
Qed.

(** X11: a submission made while nothing is in flight ends, when its
    call settles, in exactly one of three shapes: the record alone (no
    error text, no password form, no retained file, password field
    emptied); or an error text with the password form and the file
    retained; or an error text alone.  In the two error shapes no record
    is shown and the error text is never empty. *)
Theorem fresh_round_outcome env s e f :
  inflight s = [] -> submits e f ->
  let s' := run env s [e; Settle 0] in
  inflight s' = [] /\ parsing (ui s') = false /\ file (ui s') = Some f
  /\ match pipeline env f None with
     | inr v =>
       result (ui s') = v /\ error (ui s') = []
       /\ needsPassword (ui s') = false /\ pendingFile (ui s') = None
       /\ password (ui s') = []
     | inl err =>
       result (ui s') = JNull /\ error (ui s') <> []
       /\ needsPassword (ui s') = mentions_password err
       /\ (mentions_password err = true ->
             pendingFile (ui s') = Some f /\ error (ui s') = PASSWORD_MESSAGE)
       /\ (mentions_password err = false ->
             pendingFile (ui s') = pendingFile (ui s)
             /\ error (ui s') = message_or_default err)
     end.
Proof.
  intros Hin Hsub s'. subst s'. rewrite (round_ui env s e f Hin Hsub).
  destruct (submit_step env s e f Hsub) as (_ & Hp & Hn & Hr & He & Hf & Hpf).
  cbn [ui inflight].
  destruct (pipeline env f None) as [err|v]; cbn [parsePDF_settle].
  - destruct (mentions_password err) eqn:Em; cbn.
    + rewrite Hr, Hf. repeat split; try discriminate.
    + rewrite Hr, Hf, Hn, Hpf. repeat split; try discriminate.
      apply message_or_default_nonempty.
  - cbn. rewrite He, Hf. repeat split.
Qed.

Lemma fresh_round_outcome_witness :
  let env := Scenario.browser Scenario.by_issuer in
  let s' := run env start [Drop [Scenario.statementB]; Settle 0] in
  result (ui s') = Record.record_of [(js "issuer", js "Amex")]
  /\ error (ui s') = [].
Proof.
  intros env s'.
  destruct (fresh_round_outcome env start (Drop [Scenario.statementB]) Scenario.statementB)
    as (_ & _ & _ & H).
  - reflexivity.
  - right; split; reflexivity.
  - change (pipeline env Scenario.statementB None)
      with (@inr thrown JSON.value (Record.record_of [(js "issuer", js "Amex")])) in H.
    destruct H as (H1 & H2 & _). split; [exact H1|exact H2].
Defined.

(** X12: what such a submission shows in the end does not depend on
    what the page showed before it: from any two states with nothing in
    flight, the same document leads to the same record, error text,
    password-form flag, spinner flag, file name and pipeline state. *)
Theorem fresh_round_forgets env s1 s2 e f :
  inflight s1 = [] -> inflight s2 = [] -> submits e f ->
  let a := ui (run env s1 [e; Settle 0]) in
  let b := ui (run env s2 [e; Settle 0]) in
  result a = result b /\ error a = error b
  /\ needsPassword a = needsPassword b /\ parsing a = parsing b
  /\ file a = file b /\ phase a = phase b.
Proof.
  intros H1 H2 Hsub a b. subst a b.
  rewrite (round_ui env s1 e f H1 Hsub), (round_ui env s2 e f H2 Hsub).
  destruct (submit_step env s1 e f Hsub) as (_ & Hp1 & Hn1 & Hr1 & He1 & Hf1 & _).
  destruct (submit_step env s2 e f Hsub) as (_ & Hp2 & Hn2 & Hr2 & He2 & Hf2 & _).
  cbn [ui]. unfold phase.
  destruct (pipeline env f None) as [err|v]; cbn [parsePDF_settle].
  - destruct (mentions_password err); cbn;
      rewrite ?Hr1, ?Hr2, ?Hf1, ?Hf2, ?Hn1, ?Hn2; repeat split.
  - cbn. rewrite ?He1, ?He2, ?Hf1, ?Hf2. repeat split.
Qed.

Lemma fresh_round_forgets_witness :
  let env := Scenario.browser Scenario.by_issuer in
  let after_error := run env start [Drop [Scenario.locked]; Settle 0] in
  result (ui (run env start [Drop [Scenario.statementA]; Settle 0]))
  = result (ui (run env after_error [Drop [Scenario.statementA]; Settle 0])).
Proof.
  intros env after_error.
  destruct (fresh_round_forgets env start after_error
              (Drop [Scenario.statementA]) Scenario.statementA) as (H & _).
  - reflexivity.
  - reflexivity.
  - right; split; reflexivity.
  - exact H.
Defined.

(** *** Invariants of every run *)

Lemma Inv_parsePDF f pw s : Inv (parsePDF f pw s).
Proof.
  split; cbn.
  - intros H. now apply app_eq_nil in H as [_ H].
  - discriminate.
Qed.

Lemma Inv_on_ui g s :
  (forall st, parsing (g st) = parsing st) ->
  (forall st, needsPassword (g st) = needsPassword st) ->
  (forall st, pendingFile (g st) = pendingFile st) ->
  Inv s -> Inv (on_ui g s).
Proof.
  intros Hp Hn Hf [I1 I2]. split; cbn; rewrite ?Hp, ?Hn, ?Hf; assumption.
Qed.

Lemma Inv_step env s e : Inv s -> Inv (step env s e).
Proof.
  intros HI. destruct e as [t|files|files|v| |k]; cbn [step].
  - destruct t; cbn [handleDrag]; try assumption; now apply Inv_on_ui.
  - unfold handleDrop. destruct files as [|f files].
    + now apply Inv_on_ui.
    + destruct (str_eqb (type f) (js "application/pdf")).
      * apply Inv_parsePDF.
      * apply Inv_on_ui; try reflexivity. now apply Inv_on_ui.
  - unfold handleFileChange. destruct files as [|f files]; [assumption|].
    apply Inv_parsePDF.
  - now apply Inv_on_ui.
  - unfold handlePasswordSubmit.
    destruct (pendingFile (ui s)); [|assumption].
    destruct (password (ui s)); [assumption|]. apply Inv_parsePDF.
  - unfold settle. destruct (nth_error (inflight s) k) as [c|]; [|assumption].
    destruct HI as [I1 I2]. split; cbn [ui inflight].
    + intros _. destruct (pipeline env (call_file c) (call_password c)) as [err|v];
        cbn [parsePDF_settle]; [destruct (mentions_password err)|]; reflexivity.
    + destruct (pipeline env (call_file c) (call_password c)) as [err|v];
        cbn [parsePDF_settle]; [destruct (mentions_password err)|]; cbn.
      * discriminate.
      * exact I2.
      * discriminate.
Qed.

(** X13: in every state the component can reach, by any sequence of
    events and whatever the collaborators answer: when no call is in
    flight the spinner is off, and when the password form is shown a file
    is retained for the retry. *)
Theorem reachable_invariants env events :
  let s := run env start events in
  (inflight s = [] -> parsing (ui s) = false)
  /\ (needsPassword (ui s) = true -> exists f, pendingFile (ui s) = Some f).
Proof.
  assert (H : forall es s0, Inv s0 -> Inv (run env s0 es)).
  { induction es as [|e es IH]; intros s0 H0; [exact H0|].
    cbn [run fold_left]. apply (IH (step env s0 e)). now apply Inv_step. }
  destruct (H events start) as [I1 I2].
  { split; [reflexivity|discriminate]. }
  split; [exact I1|].
  intros Hn. specialize (I2 Hn).
  destruct (pendingFile (ui (run env start events))) as [f|]; [eauto|congruence].
Qed.

(** The converse of the first invariant fails: the spinner can be off
    while a call is still in flight. *)
Example spinner_off_with_call_in_flight :
  let env := Scenario.browser Scenario.by_issuer in
  let s := run env start [Drop [Scenario.statementA]; Drop [Scenario.statementB]; Settle 0] in
  parsing (ui s) = false /\ List.length (inflight s) = 1.
Proof. split; reflexivity. Qed.

(** One wrong password, tried on a state that retains [f]. *)
Lemma wrong_attempt env f s pw e :
  inflight s = [] -> pendingFile (ui s) = Some f ->
  pw <> [] ->
  pipeline env f (Some pw) = inl e -> mentions_password e = true ->
  let s' := run env s (attempt pw) in
  inflight s' = [] /\ pendingFile (ui s') = Some f
  /\ phase (ui s') = AwaitingCredential
  /\ error (ui s') = PASSWORD_MESSAGE /\ password (ui s') = pw.
Proof.
  intros Hin Hpf Hpw Hp He s'. subst s'.
  destruct pw as [|c pw]; [congruence|].
  unfold attempt. cbn [run fold_left step]. unfold handlePasswordSubmit.
  cbn [on_ui ui setPassword pendingFile password]. rewrite Hpf.
  unfold settle, parsePDF. cbn [inflight on_ui]. rewrite Hin.
  cbn [app nth_error remove_nth call_file call_password ui].
  replace (pipeline env f (Some (c :: pw))) with (@inl thrown JSON.value e)
    by (symmetry; exact Hp).
  cbn [parsePDF_settle]. rewrite He. repeat split.
Qed.

(** The right password, tried on a state that retains [f]. *)
Lemma right_attempt env f s pw parsed :
  inflight s = [] -> pendingFile (ui s) = Some f ->
  pw <> [] ->
  pipeline env f (Some pw) = inr parsed ->
  let s' := run env s (attempt pw) in
  result (ui s') = parsed /\ needsPassword (ui s') = false
  /\ pendingFile (ui s') = None /\ inflight s' = [].
Proof.
  intros Hin Hpf Hpw Hp s'. subst s'.
  destruct pw as [|c pw]; [congruence|].
  unfold attempt. cbn [run fold_left step]. unfold handlePasswordSubmit.
  cbn [on_ui ui setPassword pendingFile password]. rewrite Hpf.
  unfold settle, parsePDF. cbn [inflight on_ui]. rewrite Hin.
  cbn [app nth_error remove_nth call_file call_password ui].
  replace (pipeline env f (Some (c :: pw))) with (@inr thrown JSON.value parsed)
    by (symmetry; exact Hp).
  cbn [parsePDF_settle]. repeat split.
Qed.

Lemma run_app env s es1 es2 : run env s (es1 ++ es2) = run env (run env s es1) es2.
Proof. unfold run. apply fold_left_app. Qed.

(** Wrong passwords tried in turn keep the file and the form. *)
Lemma wrong_attempts env f : forall wrong s,
  inflight s = [] -> pendingFile (ui s) = Some f ->
  Forall (fun pw => pw <> [] /\ exists e, pipeline env f (Some pw) = inl e
                                          /\ mentions_password e = true) wrong ->
  let s1 := run env s (flat_map attempt wrong) in
  inflight s1 = [] /\ pendingFile (ui s1) = Some f
  /\ (wrong <> [] -> phase (ui s1) = AwaitingCredential
                     /\ error (ui s1) = PASSWORD_MESSAGE).
Proof.
  intros wrong. induction wrong as [|pw wrong IH] using rev_ind;
    intros s Hin Hpf Hall s1.
  - subst s1. cbn [flat_map run fold_left]. repeat split; try assumption; congruence.
  - apply Forall_app in Hall as [Hall Hpw].
    inversion Hpw as [|? ? (Hne & e & Hp & He) _]; subst.
    destruct (IH s Hin Hpf Hall) as (Hi0 & Hf0 & _).
    subst s1. rewrite flat_map_app. cbn [flat_map]. rewrite app_nil_r, run_app.
    destruct (wrong_attempt env f _ pw e Hi0 Hf0 Hne Hp He) as (Hi1 & Hf1 & Hph & Her & _).
    repeat split; assumption.
Qed.

(** X14: the password form can be retried without end.  After a
    credential error, any number of wrong passwords, each tried in turn,
    leaves the component in AwaitingCredential with the same file
    retained and the same message; the right password tried after them
    still yields the record of that file. *)
Theorem wrong_passwords_keep_the_form env f wrong s good parsed :
  inflight s = [] -> pendingFile (ui s) = Some f ->
  Forall (fun pw => pw <> [] /\ exists e, pipeline env f (Some pw) = inl e
                                          /\ mentions_password e = true) wrong ->
  good <> [] ->
  pipeline env f (Some good) = inr parsed ->
  let s1 := run env s (flat_map attempt wrong) in
  let s2 := run env s1 (attempt good) in
  inflight s1 = [] /\ pendingFile (ui s1) = Some f
  /\ (wrong <> [] -> phase (ui s1) = AwaitingCredential
                     /\ error (ui s1) = PASSWORD_MESSAGE)
  /\ result (ui s2) = parsed /\ needsPassword (ui s2) = false
  /\ pendingFile (ui s2) = None /\ inflight s2 = [].
Proof.
  intros Hin Hpf Hall Hgood Hok s1 s2.
  destruct (wrong_attempts env f wrong s Hin Hpf Hall) as (Hi1 & Hf1 & Hph).
  fold s1 in Hi1, Hf1, Hph.
  destruct (right_attempt env f s1 good parsed Hi1 Hf1 Hgood Hok) as (H1 & H2 & H3 & H4).
  fold s2 in H1, H2, H3, H4.
  repeat split; try assumption; now apply Hph.
Qed.

Lemma wrong_passwords_keep_the_form_witness :
  let env := Scenario.browser Scenario.by_issuer in
  let s := run env start [Drop [Scenario.locked]; Settle 0] in
  let s1 := run env s (flat_map attempt [js "guess"; js "1234"; js "admin"]) in
  phase (ui s1) = AwaitingCredential
  /\ result (ui (run env s1 (attempt Scenario.secret)))
     = Record.record_of [(js "issuer", js "Citi")].
Proof.
  intros env s s1.
  destruct (wrong_passwords_keep_the_form env Scenario.locked
              [js "guess"; js "1234"; js "admin"] s Scenario.secret
              (Record.record_of [(js "issuer", js "Citi")]))
    as (_ & _ & H1 & H2 & _).
  - reflexivity.
  - reflexivity.
  - repeat constructor; try discriminate;
      exists (Error Scenario.INCORRECT_PASSWORD); split; reflexivity.
  - discriminate.
  - reflexivity.
  - split; [apply H1; discriminate|exact H2].
Defined.

(** X15: only the drop zone checks the type of the file.  A dropped
    file that is not a PDF starts no call and leaves the file name, the
    record and the spinner as they were, showing [Please upload a PDF
    file]; the same file chosen through the file input starts a call. *)
Theorem type_checked_on_drop_only env s f :
  type f <> js "application/pdf" ->
  let d := step env s (Drop [f]) in
  let c := step env s (FileChange [f]) in
  (inflight d = inflight s /\ file (ui d) = file (ui s)
   /\ result (ui d) = result (ui s) /\ parsing (ui d) = parsing (ui s)
   /\ error (ui d) = js "Please upload a PDF file")
  /\ (inflight c = inflight s ++ [ {| call_file := f; call_password := None |} ]
      /\ file (ui c) = Some f /\ parsing (ui c) = true).
Proof.
  intros Ht d c. subst d c. cbn [step handleDrop handleFileChange].
  destruct (str_eqb (type f) (js "application/pdf")) eqn:E.
  - apply str_eqb_eq in E. contradiction.
  - repeat split.
Qed.

Lemma type_checked_on_drop_only_witness :
  let png := {| name := js "scan.png"; type := js "image/png"; data := [] |} in
  inflight (step (Scenario.saying []) start (Drop [png])) = []
  /\ List.length (inflight (step (Scenario.saying []) start (FileChange [png]))) = 1.
Proof.
  intros png.
  destruct (type_checked_on_drop_only (Scenario.saying []) start png)
    as ((H1 & _) & (H2 & _)).
  - discriminate.
  - split; [exact H1|]. rewrite H2. reflexivity.
Defined.

End ControllerMore.

(* ================================================================= *)
(** ** The API route, continued *)

Module ApiRouteFacts.
Import ApiRoute RegexFacts.

Lemma message_or_server_error_nonempty e : message_or_server_error e <> [].
Proof. unfold message_or_server_error. destruct (message e) as [[|c m]|]; discriminate. Qed.

(** The reply to a POST with a document, by what the model and the parser
    give. *)
Lemma handler_post env gen c doc :
  handler env gen (post (c :: doc)) = inr (answer env gen (c :: doc)).
Proof. reflexivity. Qed.

(** X16: the outcomes of the route, each under its exact condition.
    A method other than POST: 405 without a body.  A POST whose body is
    missing or [null]: the handler throws.  A POST whose [pdfText] is
    missing or falsy: 400.  Otherwise, with the text that [pdfText]
    converts to (the conversion may throw): 500 with the message of the
    error if the model client or the inner parser throws, 200 with the
    parsed value if that value is truthy, and 500 with [Failed to parse
    model output] if it is not.  So a 200 never carries [null]. *)
Theorem reply_shapes env gen req :
  (method req <> js "POST" ->
     handler env gen req = inr {| statusCode := 405; payload := None |})
  /\ (method req = js "POST" ->
      (body req = None \/ body req = Some JNull ->
         handler env gen req = inl (Error (destructureMessage env)))
      /\ (forall b, body req = Some b -> b <> JNull ->
           (opt_prop "pdfText" (Some b) = None
            \/ (exists p, opt_prop "pdfText" (Some b) = Some p /\ truthy p = false) ->
              handler env gen req
              = inr {| statusCode := 400;
                       payload := error_payload (js "Missing PDF text") |})
           /\ (forall p, opt_prop "pdfText" (Some b) = Some p -> truthy p = true ->
                (forall e, ToString env p = inl e -> handler env gen req = inl e)
                /\ (forall doc, ToString env p = inr doc ->
                     (forall err, gen (prompt doc) = inl err ->
                        handler env gen req
                        = inr {| statusCode := 500;
                                 payload := error_payload (message_or_server_error err) |})
                     /\ (forall text, gen (prompt doc) = inr text ->
                          (forall err, parseGenerated env text = inl err ->
                             handler env gen req
                             = inr {| statusCode := 500;
                                      payload := error_payload (message_or_server_error err) |})
                          /\ (forall v, parseGenerated env text = inr v ->
                               (truthy v = true ->
                                  handler env gen req
                                  = inr {| statusCode := 200; payload := Some v |})
                               /\ (truthy v = false ->
                                   handler env gen req
                                   = inr {| statusCode := 500;
                                            payload := error_payload
                                              (js "Failed to parse model output") |}))))))).
Proof.
  unfold handler. split.
  - intros Hm. destruct (str_eqb (method req) (js "POST")) eqn:E; [|reflexivity].
    apply str_eqb_eq in E. contradiction.
  - intros Hm. rewrite Hm.
    replace (str_eqb (js "POST") (js "POST")) with true by reflexivity. cbn [negb].
    split.
    + intros [-> | ->]; reflexivity.
    + intros b Hb Hnn. rewrite Hb.
      assert (Hbody : forall (A : Type) (x y : A),
                 match b with JNull => x | _ => y end = y)
        by (intros; destruct b; congruence).
      rewrite Hbody. split.
      * intros [-> | (p & -> & Hp)]; [reflexivity|]. now rewrite Hp.
      * intros p -> Hp. rewrite Hp. cbn [negb]. split.
        -- intros e ->. reflexivity.
        -- intros doc ->. cbn [bind]. split.
           ++ intros err ->. reflexivity.
           ++ intros text ->. cbn [bind]. split.
              ** intros err ->. reflexivity.
              ** intros v ->. split; intros ->; reflexivity.
Qed.

(** Each outcome occurs. *)
Lemma reply_shapes_witness :
  let env := Scenario.saying [] in
  let chase := fun _ : str => @inr thrown str (jq " {'issuer':'Chase'} ") in
  handler env chase {| method := js "GET"; body := None |}
  = inr {| statusCode := 405; payload := None |}
  /\ handler env chase {| method := js "POST"; body := None |}
     = inl (Error (destructureMessage env))
  /\ handler env chase {| method := js "POST"; body := Some (JObject []) |}
     = inr {| statusCode := 400; payload := error_payload (js "Missing PDF text") |}
  /\ handler env chase (post (js "statement"))
     = inr {| statusCode := 200;
              payload := Some (Record.record_of [(js "issuer", js "Chase")]) |}
  /\ handler env (fun _ => inr (js "1e-400")) (post (js "statement"))
     = inr {| statusCode := 500;
              payload := error_payload (js "Failed to parse model output") |}.
Proof.
  intros env chase.
  split; [|split; [|split; [|split]]].
  - apply (reply_shapes env chase {| method := js "GET"; body := None |}). discriminate.
  - apply (reply_shapes env chase {| method := js "POST"; body := None |});
      [reflexivity|now left].
  - destruct (reply_shapes env chase {| method := js "POST"; body := Some (JObject []) |})
      as [_ H]. destruct (H eq_refl) as [_ H'].
    apply (H' (JObject []) eq_refl); [discriminate|now left].
  - destruct (reply_shapes env chase (post (js "statement"))) as [_ H].
    destruct (H eq_refl) as [_ H'].
    destruct (H' _ eq_refl) as [_ H'']; [discriminate|].
    destruct (H'' (JString (js "statement")) eq_refl eq_refl) as [_ H3].
    destruct (H3 (js "statement") eq_refl) as [_ H4].
    destruct (H4 (jq " {'issuer':'Chase'} ") eq_refl) as [_ H5].
    apply (H5 (Record.record_of [(js "issuer", js "Chase")])); reflexivity.
  - destruct (reply_shapes env (fun _ => inr (js "1e-400")) (post (js "statement")))
      as [_ H].
    destruct (H eq_refl) as [_ H'].
    destruct (H' _ eq_refl) as [_ H'']; [discriminate|].
    destruct (H'' (JString (js "statement")) eq_refl eq_refl) as [_ H3].
    destruct (H3 (js "statement") eq_refl) as [_ H4].
    destruct (H4 (js "1e-400") eq_refl) as [_ H5].
    apply (H5 (JNumber (js "1e-400"))); [reflexivity|vm_compute; reflexivity].
Defined.

(** X17: an answer that is valid JSON but falsy ([null], [false], [0],
    the empty string literal) is refused: the route replies 500 with
    [Failed to parse model output], although the answer did parse. *)
Theorem falsy_answer_is_refused env gen doc text v :
  doc <> [] ->
  gen (prompt doc) = inr text ->
  JSON.parse (trim text) = Some v ->
  truthy v = false ->
  handler env gen (post doc)
  = inr {| statusCode := 500;
           payload := error_payload (js "Failed to parse model output") |}.
Proof.
  intros Hd Hg Hj Ht. destruct doc as [|c doc]; [congruence|].
  rewrite handler_post. unfold answer. rewrite Hg. cbn [bind].
  unfold parseGenerated. rewrite Hj, Ht. reflexivity.
Qed.

Lemma falsy_answer_is_refused_witness :
  handler (Scenario.saying []) (fun _ => inr (js " null ")) (post (js "statement"))
  = inr {| statusCode := 500;
           payload := error_payload (js "Failed to parse model output") |}.
Proof.
  apply (falsy_answer_is_refused (Scenario.saying []) (fun _ => inr (js " null "))
           (js "statement") (js " null ") JNull).
  - discriminate.
  - reflexivity.
  - reflexivity.
  - reflexivity.
Defined.

(** X18: an answer that is blank, or is [Not Found] with white space
    around it, gives the default record, and the route replies 200 with
    the six fields ["Not Found"]. *)
Theorem blank_or_sentinel_answers_default env gen doc text :
  doc <> [] ->
  gen (prompt doc) = inr text ->
  trim text = [] \/ trim text = NOT_FOUND ->
  parseGenerated env text = inr default_record
  /\ handler env gen (post doc)
     = inr {| statusCode := 200; payload := Some default_record |}.
Proof.
  intros Hd Hg Ht.
  assert (Hp : parseGenerated env text = inr default_record).
  { unfold parseGenerated. destruct Ht as [-> | ->]; reflexivity. }
  split; [exact Hp|].
  destruct doc as [|c doc]; [congruence|].
  rewrite handler_post. unfold answer. rewrite Hg. cbn [bind]. rewrite Hp. reflexivity.
Qed.

Lemma blank_or_sentinel_answers_default_witness :
  let text := [nl; 9%N] ++ js "Not Found" ++ [160%N; nl] in
  handler (Scenario.saying []) (fun _ => inr text) (post (js "statement"))
  = inr {| statusCode := 200; payload := Some default_record |}.
Proof.
  intros text.
  destruct (blank_or_sentinel_answers_default (Scenario.saying [])
              (fun _ => inr text) (js "statement") text) as [_ H].
  - discriminate.
  - reflexivity.
  - right; reflexivity.
  - exact H.
Defined.

(** X19: the two parsers part on an answer that is not JSON and has no
    brace span (and is neither blank nor [Not Found]): the component
    takes the default record, the route finds nothing and replies 500. *)
Theorem brace_free_answer_diverges env gen doc text :
  doc <> [] ->
  gen (prompt doc) = inr text ->
  has "{" text = false \/ has "}" text = false ->
  JSON.parse text = None ->
  JSON.parse (trim text) = None ->
  trim text <> [] ->
  trim text <> NOT_FOUND ->
  parseResponse env text = inr default_record
  /\ handler env gen (post doc)
     = inr {| statusCode := 500;
              payload := error_payload (js "Failed to parse model output") |}.
Proof.
  intros Hd Hg Hb Hj Hjt Hne Hnf.
  assert (Ex : Regex.exec text = None)
    by (destruct Hb; [now apply exec_no_open | now apply exec_no_close]).
  split.
  - rewrite ParserFacts.parseResponse_cases, Hj, Ex. reflexivity.
  - destruct doc as [|c doc]; [congruence|].
    rewrite handler_post. unfold answer. rewrite Hg. cbn [bind].
    unfold parseGenerated. rewrite Hjt, Ex.
    destruct (str_eqb (trim text) NOT_FOUND) eqn:E1.
    { apply str_eqb_eq in E1. contradiction. }
    destruct (trim text); [congruence|]. reflexivity.
Qed.

Lemma brace_free_answer_diverges_witness :
  let text := js "I could not read the statement." in
  parseResponse (Scenario.saying []) text = inr default_record
  /\ handler (Scenario.saying []) (fun _ => inr text) (post (js "statement"))
     = inr {| statusCode := 500;
              payload := error_payload (js "Failed to parse model output") |}.
Proof.
  intros text.
  destruct (brace_free_answer_diverges (Scenario.saying []) (fun _ => inr text)
              (js "statement") text) as [H1 H2].
  - discriminate.
  - reflexivity.
  - left; reflexivity.
  - reflexivity.
  - reflexivity.
  - discriminate.
  - discriminate.
  - split; [exact H1|exact H2].
Defined.

End ApiRouteFacts.
